(** * distributed-api-monitor: a shallow embedding of the Go core

    The development follows the packages of the repository:

    - [checker]  (internal/checker/http.go): [Check] and [CheckMultiple];
    - [ai]       (internal/ai): [AnalyzeEndpoints], [parseInsights],
                 [validateType] and the rule-based [fallbackInsights];
    - [storage]  (internal/storage/postgres.go): [SaveResult],
                 [SaveResults], [GetRecentResults] over a model of the
                 [check_results] table;
    - [grpc]     (internal/grpc/server.go): the endpoint registry with
                 [AddEndpoint], [startMonitoring] and [StopMonitoring];
    - [web]      (cmd/web/main.go): [generateInsights], the insights
                 served and the handler of the monitored URLs;
    - [query]    (cmd/query/main.go): the statistics of the results read;
    - [mockai]   (cmd/mock-ai/main.go): the mock completion service.

    The definitions come first, package by package; the properties
    follow in the same order.

    Go's [int] and [time.Duration] are 64-bit signed integers; they are
    modelled as [Z] with the wrap-around written out ([wrap64]).  Calls
    that leave the process (the HTTP client, the clock, the completion
    service, the JSON decoder, the SQL server) are answered by explicit
    arguments, so that every function below is a total Rocq function. *)

From Stdlib Require Import ZArith QArith Qround List Lia.
From Stdlib Require Import DecimalString DecimalZ Permutation.
From stdpp Require Import gmap strings list fin_maps relations sorting.

Local Open Scope Z_scope.

(** ** Go runtime values shared by the packages *)

(** Two's-complement wrap-around of a 64-bit signed integer. *)
Definition wrap64 (z : Z) : Z := (z + 2 ^ 63) mod 2 ^ 64 - 2 ^ 63.

Definition in_int64 (z : Z) : Prop := - 2 ^ 63 <= z < 2 ^ 63.

(** [time.Duration]: a signed 64-bit count of nanoseconds. *)
Definition Duration := Z.
Definition Nanosecond : Duration := 1.
Definition Millisecond : Duration := 1000000.
Definition Second : Duration := 1000000000.

(** [time.Time], as an instant on an integer time line. *)
Definition Time := Z.

(** A Go call either returns or panics. *)
Inductive outcome (A : Type) : Type :=
  | Returns (a : A)
  | Panics (msg : string).
Arguments Returns {A} a.
Arguments Panics {A} msg.

(** Comparing two rationals is comparing two integers. *)
#[global] Instance Qlt_decision (x y : Q) : Decision (x < y)%Q :=
  Z_lt_dec (Qnum x * QDen y) (Qnum y * QDen x).

(** A Go slice has an [int] length. *)
Definition is_slice {A : Type} (l : list A) : Prop :=
  Z.of_nat (length l) < 2 ^ 63.

(** [fmt.Sprintf("%d", n)] for a signed integer. *)
Definition fmt_d (n : Z) : string := NilZero.string_of_int (Z.to_int n).

(** [strings.Join(elems, sep)] *)
Fixpoint strings_Join (elems : list string) (sep : string) : string :=
  match elems with
  | [] => ""
  | [e] => e
  | e :: rest => e +:+ sep +:+ strings_Join rest sep
  end.

(** [func (d Duration) Round(m Duration) Duration]: to the nearest
    multiple of [m], halfway values away from zero. *)
Definition lessThanHalf (x y : Z) : bool := (x + x) mod 2 ^ 64 <? y mod 2 ^ 64.

Definition Duration_Round (d m : Duration) : Duration :=
  if m <=? 0 then d
  else
    let r := Z.rem d m in
    if d <? 0 then
      let r := wrap64 (- r) in
      if lessThanHalf r m then wrap64 (d + r)
      else
        let d1 := wrap64 (wrap64 (d - m) + r) in
        if d1 <? d then d1 else - 2 ^ 63
    else if lessThanHalf r m then wrap64 (d - r)
    else
      let d1 := wrap64 (wrap64 (d + m) - r) in
      if d1 >? d then d1 else 2 ^ 63 - 1.

(** Integer division of two [int64]: truncated, and a run-time panic
    when the divisor is zero. *)
Definition div64 (a b : Z) : outcome Z :=
  if b =? 0 then Panics "runtime error: integer divide by zero"
  else Returns (wrap64 (Z.quot a b)).

(** ** Package checker *)

Module checker.

(** [CheckResult] holds the result of checking an endpoint. *)
Record CheckResult := mkCheckResult {
  URL : string;
  StatusCode : Z;
  ResponseTime : Duration;
  IsHealthy : bool;
  Error : string;
  CheckedAt : Time
}.

(** The zero value of the struct. *)
Definition zero : CheckResult := mkCheckResult "" 0 0 false "" 0.

(** [*url.Error], the only error type [http.Client.Get] returns. *)
Record url_Error := mk_url_Error {
  Op : string;
  ErrURL : string;
  Err : string
}.

Section Checker.

(** [strconv.Quote], used by the [%q] verb in the [Error] method of [url.Error]. *)
Variable strconv_Quote : string -> string.

(** [func (e *Error) Error() string]:
    [fmt.Sprintf("%s %q: %s", e.Op, e.URL, e.Err)]. *)
Definition url_Error_Error (e : url_Error) : string :=
  Op e +:+ " " +:+ strconv_Quote (ErrURL e) +:+ ": " +:+ Err e.

(** What [c.client.Get(url)] gives back: a response with its status code,
    or a transport error (DNS, connect, timeout, TLS). *)
Inductive GetResult :=
  | Resp (statusCode : Z)
  | TransportErr (e : url_Error).

(** The answers of the outside world to the three calls one [Check]
    makes: [time.Now()], [c.client.Get] and [time.Since(start)]. *)
Record Env := mkEnv {
  time_Now : Time;
  client_Get : string -> GetResult;
  time_Since : Time -> Duration
}.

(** [func (c *HTTPChecker) Check(url string) CheckResult] *)
Definition Check (env : Env) (url : string) : CheckResult :=
  let start := time_Now env in
  let result := mkCheckResult url 0 0 false "" start in
  let got := client_Get env url in
  let result :=
    mkCheckResult (URL result) (StatusCode result) (time_Since env start)
                  (IsHealthy result) (Error result) (CheckedAt result) in
  match got with
  | TransportErr err =>
      mkCheckResult (URL result) (StatusCode result) (ResponseTime result)
                    false (url_Error_Error err) (CheckedAt result)
  | Resp code =>
      mkCheckResult (URL result) code (ResponseTime result)
                    ((200 <=? code) && (code <? 300))
                    (Error result) (CheckedAt result)
  end.

(** *** CheckMultiple

    [CheckMultiple] starts one goroutine per URL; goroutine [k] runs
    [c.Check(urls[k])] and sends the outcome on the buffered channel
    [done] (capacity [len(urls)]).  The calling goroutine then receives
    [len(urls)] values and stores the [i]-th value received in
    [results[i]].  The Go scheduler and the network decide the order of
    the sends; the model is a step relation over the state below. *)

(** The world seen by each goroutine of one batch: goroutine [k] makes
    its three calls against [envs k]. *)
Variable envs : nat -> Env.

(** [NewHTTPChecker(timeout)] builds [&http.Client{Timeout: timeout}],
    and a [Timeout] that is not positive means no timeout. So whether
    [c.client.Get] comes back at all is not up to [Check]: with a
    positive timeout it always does (the timeout is one of the transport
    errors); without one it does only if the GET of goroutine [k] is
    answered, by a response or by a failure of the transport. *)
Variable timeout : Duration.
Variable answered : nat -> bool.

Definition Get_returns (k : nat) : bool := (0 <? timeout) || answered k.

Record CMState := mkCM {
  pending : list (nat * string); (* goroutines that have not sent yet *)
  done : list CheckResult;       (* the channel buffer, oldest first *)
  results : list CheckResult;    (* the slice being filled *)
  idx : nat                      (* the receiving loop's [i] *)
}.

(** [for _, url := range urls { go func(u string) {...}(url) }] *)
Definition spawn (urls : list string) : list (nat * string) :=
  imap (fun k u => (k, u)) urls.

(** What goroutine [g] sends: [c.Check(u)]. *)
Definition run_goroutine (g : nat * string) : CheckResult :=
  Check (envs (fst g)) (snd g).

(** [results := make([]CheckResult, len(urls))],
    [done := make(chan CheckResult, len(urls))], all goroutines started. *)
Definition CM_init (urls : list string) : CMState :=
  mkCM (spawn urls) [] (replicate (length urls) zero) 0.

Inductive CM_step (cap : nat) : CMState -> CMState -> Prop :=
  | CM_send l1 g l2 d rs i :
      (* [done <- c.Check(u)]: the send of a goroutine whose [Check] has
         come back proceeds while the buffer has room *)
      Get_returns (fst g) = true ->
      (length d < cap)%nat ->
      CM_step cap (mkCM (l1 ++ g :: l2) d rs i)
                  (mkCM (l1 ++ l2) (d ++ [run_goroutine g]) rs i)
  | CM_recv p r d rs i :
      (* [results[i] = <-done], [i++] *)
      (i < cap)%nat ->
      CM_step cap (mkCM p (r :: d) rs i) (mkCM p d (<[i:=r]> rs) (S i)).

(** The receiving loop leaves when [i = len(urls)]; [results] is returned. *)
Definition CM_final (cap : nat) (s : CMState) : Prop := idx s = cap.

(** An executable run, for a batch in which every [Check] comes back: a
    schedule tells which of the goroutines still pending completes next
    (its position among them, modulo their number). [fuel] is the number
    of goroutines still to complete. *)
Fixpoint arrivals (fuel : nat) (sched : list nat) (pend : list (nat * string))
  : list CheckResult :=
  match fuel with
  | O => []
  | S fuel' =>
      let k := (hd O sched mod length pend)%nat in
      match pend !! k with
      | Some g => run_goroutine g :: arrivals fuel' (tl sched) (delete k pend)
      | None => []
      end
  end.

(** The receiving loop over the values in the order they arrived. *)
Fixpoint collect (i : nat) (arrived : list CheckResult) (rs : list CheckResult)
  : list CheckResult :=
  match arrived with
  | [] => rs
  | r :: rest => collect (S i) rest (<[i:=r]> rs)
  end.

(** [func (c *HTTPChecker) CheckMultiple(urls []string) []CheckResult]:
    what the call returns under the completion order [sched]. *)
Definition CheckMultiple (sched : list nat) (urls : list string)
  : list CheckResult :=
  collect 0 (arrivals (length urls) sched (spawn urls))
          (replicate (length urls) zero).

(** The call comes back only after [len(urls)] receives, one for each
    goroutine: when the [Check] of every one of them comes back. *)
Definition CheckMultiple_returns (urls : list string) : bool :=
  forallb Get_returns (seq 0 (length urls)).

(** The outcome of each URL's own check, in input order: [Check(u)] for
    the [k]-th URL [u], in the world of goroutine [k]. *)
Definition outcomes (urls : list string) : list CheckResult :=
  imap (fun k u => Check (envs k) u) urls.

(** The property the specification asks for: the [i]-th result is the
    result for the [i]-th input URL. *)
Definition in_input_order (urls : list string) (rs : list CheckResult) : Prop :=
  forall i : nat, URL <$> rs !! i = urls !! i.

(** What every reachable state of a batch over [urls] satisfies: each
    goroutine's outcome is in exactly one of the filled prefix of
    [results], the channel buffer, or still to be sent. *)
Definition CM_inv (urls : list string) (s : CMState) : Prop :=
  (idx s + length (done s) + length (pending s) = length urls)%nat /\
  length (results s) = length urls /\
  take (idx s) (results s) ++ done s ++ (run_goroutine <$> pending s) ≡ₚ outcomes urls.

(** Every step uses up one unit of [2 * pending + buffered], so a batch
    over n URLs that ends does so after exactly 2n steps. *)
Definition CM_measure (s : CMState) : nat :=
  (2 * length (pending s) + length (done s))%nat.

End Checker.

End checker.

(** ** Package ai *)

Module ai.

Import checker.

(** [Insight] represents an AI-generated monitoring insight. The Go
    field [Type] is spelled [Type_] here; [Confidence] is a [float64],
    kept as the rational it denotes. *)
Record Insight := mkInsight {
  Title : string;
  Content : string;
  Type_ : string;
  Confidence : Q;
  GeneratedAt : Time
}.

(** The anonymous struct [parseInsights] decodes into. *)
Record RawInsight := mkRawInsight {
  rawTitle : string;
  rawContent : string;
  rawType : string;
  rawConfidence : Q
}.

(** [Message], [ChatCompletionRequest], [Choice],
    [ChatCompletionResponse]. *)
Record Message := mkMessage { Role : string; MsgContent : string }.

Record ChatCompletionRequest := mkRequest {
  ReqModel : string;
  Messages : list Message;
  MaxTokens : Z;
  Temperature : Q
}.

Record Choice := mkChoice { Index : Z; ChoiceMessage : Message }.

Record ChatCompletionResponse := mkResponse {
  ID : string;
  Object : string;
  Created : Z;
  RespModel : string;
  Choices : list Choice
}.

(** [GPTOSSClient] *)
Record GPTOSSClient := mkClient {
  baseURL : string;
  apiKey : string;
  model : string;
  maxTokens : Z;
  temperature : Q
}.

(** Go [error] values: a plain message, or [fmt.Errorf] with the [%w]
    verb, which keeps the error it wraps. *)
Inductive error :=
  | errorString (text : string)
  | wrapError (prefix : string) (wrapped : error).

Fixpoint error_Error (e : error) : string :=
  match e with
  | errorString text => text
  | wrapError prefix wrapped => prefix +:+ error_Error wrapped
  end.

Definition errors_Unwrap (e : error) : option error :=
  match e with
  | errorString _ => None
  | wrapError _ wrapped => Some wrapped
  end.

(** What [c.client.Do(req)] gives back. *)
Inductive DoResult :=
  | DoErr (err : error)
  | DoResp (statusCode : Z) (body : string).

(** [strings.Index] and [strings.LastIndex]: byte offsets, -1 when the
    substring does not occur. *)
Fixpoint strings_Index (s substr : string) : Z :=
  if String.prefix substr s then 0
  else match s with
       | EmptyString => -1
       | String _ rest =>
           let r := strings_Index rest substr in
           if r <? 0 then -1 else r + 1
       end.

Fixpoint strings_LastIndex (s substr : string) : Z :=
  match s with
  | EmptyString => if String.prefix substr s then 0 else -1
  | String _ rest =>
      let r := strings_LastIndex rest substr in
      if 0 <=? r then r + 1
      else if String.prefix substr s then 0 else -1
  end.

(** The slice expression [s[lo:hi]]. *)
Definition slice (s : string) (lo hi : Z) : string :=
  String.substring (Z.to_nat lo) (Z.to_nat (hi - lo)) s.

Definition newline : string := String (Ascii.ascii_of_nat 10) "".
Definition dquote : string := String (Ascii.ascii_of_nat 34) "".

(** [validateType] ensures insight type is valid. *)
Definition validTypes : gmap string bool :=
  <["alert" := true]> (<["warning" := true]>
    (<["info" := true]> (<["success" := true]> ∅))).

Definition validateType (t : string) : string :=
  if default false (validTypes !! t) then t else "info".

(** The counters of the loop of [fallbackInsights]. *)
Record tally := mkTally {
  unhealthy : Z;
  unhealthyURLs : list string;
  totalResponseTime : Duration;
  slowEndpoints : Z
}.

(** One iteration of [for _, result := range results]. *)
Definition tally_step (t : tally) (result : CheckResult) : tally :=
  let t :=
    if negb (IsHealthy result)
    then mkTally (wrap64 (unhealthy t + 1)) (unhealthyURLs t ++ [URL result])
                 (totalResponseTime t) (slowEndpoints t)
    else t in
  let t :=
    mkTally (unhealthy t) (unhealthyURLs t)
            (wrap64 (totalResponseTime t + ResponseTime result))
            (slowEndpoints t) in
  if ResponseTime result >? 2 * Second
  then mkTally (unhealthy t) (unhealthyURLs t) (totalResponseTime t)
               (wrap64 (slowEndpoints t + 1))
  else t.

Definition tally_of (results : list CheckResult) : tally :=
  fold_left tally_step results (mkTally 0 [] 0 0).

(** The quantities the rules are stated in: the results that are not
    healthy, those slower than two seconds, and the exact sum of the
    response times. *)
Definition is_unhealthy (result : CheckResult) : Prop :=
  IsHealthy result = false.

Definition is_slow (result : CheckResult) : Prop :=
  2 * Second < ResponseTime result.

Definition sum_ResponseTime (results : list CheckResult) : Z :=
  foldr (fun result acc => ResponseTime result + acc) 0 results.

(** The average as the specification words it: the sum of all response
    times divided by the count of results, a rational number of
    nanoseconds. *)
Definition average (results : list CheckResult) : Q :=
  sum_ResponseTime results # Pos.of_nat (length results).

(** What [totalResponseTime / time.Duration(len(results))] evaluates to
    on a non-empty slice: the sum and the quotient are taken in 64 bits,
    and the quotient is truncated. *)
Definition avgResponseTime (results : list CheckResult) : Duration :=
  wrap64 (Z.quot (wrap64 (sum_ResponseTime results))
                 (Z.of_nat (length results))).

(** The insights of one type among those returned. *)
Definition of_type (ty : string) (insights : list Insight) : list Insight :=
  filter (fun i => Type_ i = ty) insights.

(** "Exactly one insight of type [ty], and it satisfies [P], if and
    only if [cond]": one when [cond] holds, none otherwise. *)
Definition one_iff (cond : Prop) (ty : string) (P : Insight -> Prop)
    (insights : list Insight) : Prop :=
  (cond -> exists a, of_type ty insights = [a] /\ P a) /\
  (~ cond -> of_type ty insights = []).

Section Client.

(** The [%v] verb on a [time.Duration] (its [String] method). *)
Variable Duration_String : Duration -> string.

(** The successive readings of [time.Now()] during one call. *)
Variable time_Now : nat -> Time.

(** [json.Unmarshal] of the bracketed text into the raw insights;
    [None] when it returns an error. *)
Variable json_Unmarshal : string -> option (list RawInsight).

(** The completion service: [http.NewRequestWithContext] (an error, if
    any, for the target URL), [c.client.Do] and the JSON decoding of a
    response body. *)
Variable http_NewRequest : string -> option error.
Variable client_Do : string -> ChatCompletionRequest -> DoResult.
Variable json_Decode : string -> error + ChatCompletionResponse.

(** [insights = append(insights, Insight{..., GeneratedAt: time.Now()})]:
    the n-th insight appended carries the n-th reading of the clock. *)
Definition append_now (insights : list Insight) (mk : Time -> Insight)
  : list Insight :=
  insights ++ [mk (time_Now (length insights))].

(** [buildAnalysisPrompt] creates a structured prompt for endpoint analysis. *)
Definition prompt_line (result : CheckResult) : string :=
  let status := if negb (IsHealthy result) then "UNHEALTHY" else "HEALTHY" in
  "- " +:+ URL result +:+ ": " +:+ status +:+ " (Status: " +:+
  fmt_d (StatusCode result) +:+ ", Response Time: " +:+
  Duration_String (Duration_Round (ResponseTime result) Millisecond) +:+
  ", Error: " +:+ Error result +:+ ")" +:+ newline.

Definition buildAnalysisPrompt (results : list CheckResult) : string :=
  "You are an expert system administrator analyzing API endpoint monitoring data. " +:+
  "Provide 2-4 concise insights in JSON format with title, content, type (alert/warning/info/success), and confidence (0.0-1.0)." +:+ newline +:+ newline +:+
  "Current endpoint status:" +:+ newline +:+
  fold_right (fun result rest => prompt_line result +:+ rest) "" results +:+
  newline +:+ "Provide insights as JSON array: [{" +:+
  dquote +:+ "title" +:+ dquote +:+ ":" +:+ dquote +:+ "..." +:+ dquote +:+ "," +:+
  dquote +:+ "content" +:+ dquote +:+ ":" +:+ dquote +:+ "..." +:+ dquote +:+ "," +:+
  dquote +:+ "type" +:+ dquote +:+ ":" +:+ dquote +:+ "alert|warning|info|success" +:+ dquote +:+ "," +:+
  dquote +:+ "confidence" +:+ dquote +:+ ":0.9}]" +:+ newline +:+
  "Focus on:" +:+ newline +:+
  "1. Immediate issues requiring attention" +:+ newline +:+
  "2. Performance trends and patterns" +:+ newline +:+
  "3. Proactive recommendations" +:+ newline +:+
  "4. System health summary" +:+ newline.

(** [complete] sends a completion request to GPT-OSS. It returns the
    pair [(text, err)] of the Go function; [err = None] is Go's [nil].
    ([json.Marshal] cannot fail on a [ChatCompletionRequest].) *)
Definition complete (c : GPTOSSClient) (prompt : string)
  : string * option error :=
  let request :=
    mkRequest (model c)
      [ mkMessage "system"
          "You are a monitoring system AI assistant. Respond only with valid JSON.";
        mkMessage "user" prompt ]
      (maxTokens c) (temperature c) in
  let target := baseURL c +:+ "/v1/chat/completions" in
  match http_NewRequest target with
  | Some err => ("", Some (wrapError "failed to create request: " err))
  | None =>
      match client_Do target request with
      | DoErr err => ("", Some (wrapError "request failed: " err))
      | DoResp statusCode body =>
          if negb (statusCode =? 200)
          then ("", Some (errorString
                   ("API error " +:+ fmt_d statusCode +:+ ": " +:+ body)))
          else
            match json_Decode body with
            | inl err => ("", Some (wrapError "failed to decode response: " err))
            | inr response =>
                match Choices response with
                | [] => ("", Some (errorString "no choices in response"))
                | first :: _ => (MsgContent (ChoiceMessage first), None)
                end
            end
      end
  end.

(** [parseInsights] extracts insights from AI response. Go's [nil]
    slice is the empty list. *)
Definition parseInsights (response : string) : list Insight :=
  let start := strings_Index response "[" in
  let end_ := strings_LastIndex response "]" in
  if (start =? -1) || (end_ =? -1) || (start >=? end_) then []
  else
    let jsonStr := slice response start (end_ + 1) in
    match json_Unmarshal jsonStr with
    | None => []
    | Some rawInsights =>
        imap (fun i raw =>
                mkInsight (rawTitle raw) (rawContent raw)
                          (validateType (rawType raw)) (rawConfidence raw)
                          (time_Now i))
             rawInsights
    end.

(** The four insights [fallbackInsights] can append. *)
Definition alertInsight (t : tally) (now : Time) : Insight :=
  mkInsight "ðŸš¨ Service Disruption Detected"
    (fmt_d (unhealthy t) +:+ " endpoint(s) are currently down: " +:+
     strings_Join (unhealthyURLs t) ", ")
    "alert" 1 now.

Definition warningInsight (t : tally) (now : Time) : Insight :=
  mkInsight "âš ï¸ Performance Issues"
    (fmt_d (slowEndpoints t) +:+
     " endpoint(s) showing elevated response times (>2s). Consider investigating server load or network issues.")
    "warning" (9 # 10) now.

Definition successInsight (avgResponseTime : Duration) (now : Time) : Insight :=
  mkInsight "âœ… System Health Excellent"
    ("All endpoints healthy with optimal average response time of " +:+
     Duration_String (Duration_Round avgResponseTime Millisecond) +:+ ".")
    "success" (95 # 100) now.

Definition infoInsight (now : Time) : Insight :=
  mkInsight "ðŸ’¡ Monitoring Recommendation"
    "Consider setting up automated alerts for response times >3s and implementing health check redundancy across multiple regions."
    "info" (8 # 10) now.

(** [fallbackInsights] provides rule-based insights when AI is unavailable. *)
Definition fallbackInsights (results : list CheckResult)
  : outcome (list Insight) :=
  let insights : list Insight := [] in
  let t := tally_of results in
  match div64 (totalResponseTime t) (Z.of_nat (length results)) with
  | Panics msg => Panics msg
  | Returns avgResponseTime =>
      let insights :=
        if unhealthy t >? 0
        then append_now insights (alertInsight t) else insights in
      let insights :=
        if slowEndpoints t >? 0
        then append_now insights (warningInsight t) else insights in
      let insights :=
        if (avgResponseTime <? 500 * Millisecond) && (unhealthy t =? 0)
        then append_now insights (successInsight avgResponseTime)
        else insights in
      let insights := append_now insights infoInsight in
      Returns insights
  end.

(** [AnalyzeEndpoints] generates AI insights from endpoint monitoring
    data. It returns the pair [(insights, err)] of the Go function, or
    panics. *)
Definition AnalyzeEndpoints (c : GPTOSSClient) (results : list CheckResult)
  : outcome (list Insight * option error) :=
  let prompt := buildAnalysisPrompt results in
  match complete c prompt with
  | (_, Some err) =>
      match fallbackInsights results with
      | Panics msg => Panics msg
      | Returns fallback =>
          Returns (fallback,
                   Some (wrapError "AI analysis failed, using fallback: " err))
      end
  | (response, None) =>
      let insights := parseInsights response in
      if (length insights =? 0)%nat
      then match fallbackInsights results with
           | Panics msg => Panics msg
           | Returns fallback => Returns (fallback, None)
           end
      else Returns (insights, None)
  end.

End Client.

(** [NewGPTOSSClient] creates a new GPT-OSS client. [strings.TrimSpace]
    is passed in; the HTTP client and its 30s timeout belong to the
    transport. *)
Definition NewGPTOSSClient (strings_TrimSpace : string -> string)
    (baseURL apiKey model : string) : GPTOSSClient :=
  let effectiveModel := strings_TrimSpace model in
  let effectiveModel :=
    if String.eqb effectiveModel "" then "gpt-oss-20b" else effectiveModel in
  mkClient baseURL apiKey effectiveModel 512 (3 # 10).

End ai.

(** ** Package storage *)

Module storage.

Import checker.

(** One row of the table [check_results], as [createTables] declares it,
    with the values its [INSERT] sent; what the columns [url] and
    [checked_at] keep of them is [stored_url] and [stored_checked_at]
    below. The [SERIAL] column [id] is filled by the server and never
    read by the program: a row's position in the table stands for it.
    [status_code] is the one column a row may leave [NULL]. *)
Record Row := mkRow {
  url : string;                  (* VARCHAR(500) NOT NULL *)
  status_code : option Z;        (* INTEGER *)
  response_time_ms : Z;          (* INTEGER NOT NULL *)
  is_healthy : bool;             (* BOOLEAN NOT NULL *)
  error_message : option string; (* TEXT *)
  checked_at : Time              (* TIMESTAMP NOT NULL *)
}.

(** The errors the driver reports. *)
Inductive sql_error :=
  | ErrBadConn           (* the server cannot be reached, or the connection broke *)
  | ErrInvalidText       (* invalid byte sequence for encoding "UTF8" *)
  | ErrValueTooLong      (* value too long for type character varying(500) *)
  | ErrIntegerOutOfRange (* value out of range for type integer *)
  | ErrNegativeLimit     (* LIMIT must not be negative *)
  | ErrScanNull          (* Scan: converting NULL to int is unsupported *)
  | ErrTxDone.           (* transaction has already been committed or rolled back *)

(** The server: the committed rows in insertion order, and the number
    of round trips made so far. *)
Record DB := mkDB {
  rows : list Row;
  trips : nat
}.

(** A transaction opened by [db.Begin()]: the writes made through it,
    not yet visible, and whether it has ended. *)
Record Tx := mkTx {
  pending : list Row;
  finished : bool
}.

Definition in_int32 (z : Z) : bool := (- 2 ^ 31 <=? z) && (z <? 2 ^ 31).

(** The server keeps text in UTF-8, the encoding of a new database and
    the one the driver speaks. A text value is refused unless it is
    well-formed UTF-8 without the byte zero. *)
Definition byte (c : Ascii.ascii) : Z := Z.of_N (Ascii.N_of_ascii c).

Definition between (lo hi : Z) (c : Ascii.ascii) : bool :=
  (lo <=? byte c) && (byte c <=? hi).

Definition continuation (c : Ascii.ascii) : bool := between 128 191 c.

Fixpoint valid_text (s : string) : bool :=
  match s with
  | EmptyString => true
  | String c0 s1 =>
      if between 1 127 c0 then valid_text s1
      else if between 194 223 c0 then
        match s1 with
        | String c1 s2 => continuation c1 && valid_text s2
        | _ => false
        end
      else if between 224 239 c0 then
        match s1 with
        | String c1 (String c2 s3) =>
            (if byte c0 =? 224 then between 160 191 c1
             else if byte c0 =? 237 then between 128 159 c1
             else continuation c1)
            && continuation c2 && valid_text s3
        | _ => false
        end
      else if between 240 244 c0 then
        match s1 with
        | String c1 (String c2 (String c3 s4)) =>
            (if byte c0 =? 240 then between 144 191 c1
             else if byte c0 =? 244 then between 128 143 c1
             else continuation c1)
            && continuation c2 && continuation c3 && valid_text s4
        | _ => false
        end
      else false
  end.

(** [VARCHAR(n)] counts characters, not bytes: a character starts at
    every byte that is not a continuation byte. *)
Fixpoint utf8_length (s : string) : Z :=
  match s with
  | EmptyString => 0
  | String c rest => (if continuation c then 0 else 1) + utf8_length rest
  end.

(** The first [n] characters of [s], and what comes after them. *)
Fixpoint utf8_take (n : Z) (s : string) : string :=
  match s with
  | EmptyString => EmptyString
  | String c rest =>
      if continuation c then String c (utf8_take n rest)
      else if n <=? 0 then EmptyString
      else String c (utf8_take (n - 1) rest)
  end.

Fixpoint utf8_drop (n : Z) (s : string) : string :=
  match s with
  | EmptyString => EmptyString
  | String c rest =>
      if continuation c then utf8_drop n rest
      else if n <=? 0 then s
      else utf8_drop (n - 1) rest
  end.

Fixpoint all_blank (s : string) : bool :=
  match s with
  | EmptyString => true
  | String c rest => (byte c =? 32) && all_blank rest
  end.

(** The checks the server makes on the values of an [INSERT]: each
    parameter is read as a value of its column's type when the statement
    is bound, and the [url] is fitted into [VARCHAR(500)] when the row
    is written. A value longer than 500 characters is refused unless
    the characters in excess are all blanks. *)
Definition check_row (row : Row) : option sql_error :=
  if negb (valid_text (url row)) then Some ErrInvalidText
  else if negb (from_option in_int32 true (status_code row))
  then Some ErrIntegerOutOfRange
  else if negb (in_int32 (response_time_ms row)) then Some ErrIntegerOutOfRange
  else if negb (from_option valid_text true (error_message row))
  then Some ErrInvalidText
  else if negb (all_blank (utf8_drop 500 (url row))) then Some ErrValueTooLong
  else None.

(** What the column [url] keeps of the value sent: its first 500
    characters (the blanks in excess are cut off). *)
Definition stored_url (row : Row) : string := utf8_take 500 (url row).

(** [func (d Duration) Milliseconds() int64] *)
Definition Duration_Milliseconds (d : Duration) : Z := Z.quot d 1000000.

(** The row [SaveResult] sends for a result. *)
Definition row_of (result : CheckResult) : Row :=
  let responseTimeMs := Duration_Milliseconds (ResponseTime result) in
  let errorMessage :=
    if String.eqb (Error result) "" then None else Some (Error result) in
  mkRow (URL result) (Some (StatusCode result)) responseTimeMs
        (IsHealthy result) errorMessage (CheckedAt result).

Section Store.

(** Whether the n-th round trip to the server goes through. *)
Variable up : nat -> bool.

(** What the column [checked_at], a [TIMESTAMP], keeps of a [time.Time]
    and the driver reads back from it: the date and time of day without
    their zone, to the microsecond. *)
Variable timestamp : Time -> Time.

(** How the reading of the rows of the n-th round trip goes: [None] when
    [rows.Next()] delivers every row; [Some k] when the connection
    breaks once [k] rows have been delivered, which [rows.Err()] then
    reports. *)
Variable broken_after : nat -> option nat.

(** [s.db.Exec(INSERT ...)]: a statement of its own, committed at once
    when the server accepts it. The row is kept with the values sent;
    what is read back of its [url] and [checked_at] is [stored_url] and
    [stored_checked_at]. *)
Definition db_Exec_insert (db : DB) (row : Row) : DB * option sql_error :=
  let db' := mkDB (rows db) (S (trips db)) in
  if negb (up (trips db)) then (db', Some ErrBadConn)
  else match check_row row with
       | Some err => (db', Some err)
       | None => (mkDB (rows db ++ [row]) (S (trips db)), None)
       end.

(** [s.db.Begin()] *)
Definition db_Begin (db : DB) : DB * (Tx + sql_error) :=
  let db' := mkDB (rows db) (S (trips db)) in
  if up (trips db) then (db', inl (mkTx [] false)) else (db', inr ErrBadConn).

(** [tx.Commit()]: the writes made through the transaction become
    visible together. *)
Definition tx_Commit (db : DB) (tx : Tx) : DB * Tx * option sql_error :=
  if finished tx then (db, tx, Some ErrTxDone)
  else
    let db' := mkDB (rows db) (S (trips db)) in
    if up (trips db)
    then (mkDB (rows db ++ pending tx) (S (trips db)), mkTx [] true, None)
    else (db', mkTx [] true, Some ErrBadConn).

(** [tx.Rollback()]: the writes made through the transaction are dropped. *)
Definition tx_Rollback (db : DB) (tx : Tx) : DB * Tx * option sql_error :=
  if finished tx then (db, tx, Some ErrTxDone)
  else (mkDB (rows db) (S (trips db)), mkTx [] true, None).

(** [SaveResult] saves a check result to the database. *)
Definition SaveResult (db : DB) (result : CheckResult) : DB * option sql_error :=
  db_Exec_insert db (row_of result).

(** The loop of [SaveResults]: it stops at the first error. *)
Fixpoint save_each (db : DB) (results : list CheckResult)
  : DB * option sql_error :=
  match results with
  | [] => (db, None)
  | result :: rest =>
      match SaveResult db result with
      | (db', Some err) => (db', Some err)
      | (db', None) => save_each db' rest
      end
  end.

(** [SaveResults] saves multiple check results. [defer tx.Rollback()]
    runs on every way out, after the value to return is fixed. *)
Definition SaveResults (db : DB) (results : list CheckResult)
  : DB * option sql_error :=
  match db_Begin db with
  | (db, inr err) => (db, Some err)
  | (db, inl tx) =>
      match save_each db results with
      | (db, Some err) =>
          let '(db, _, _) := tx_Rollback db tx in (db, Some err)
      | (db, None) =>
          let '(db, tx, err) := tx_Commit db tx in
          let '(db, _, _) := tx_Rollback db tx in (db, err)
      end
  end.

Definition stored_checked_at (row : Row) : Time := timestamp (checked_at row).

(** [ORDER BY checked_at DESC]: a row comes before the rows checked no
    later than it. The order among rows with the same [checked_at] is
    the server's choice; here they stay in the order of insertion, and
    nothing below depends on that. *)
Definition newer_first (a b : Row) : Prop :=
  stored_checked_at b <= stored_checked_at a.

#[global] Instance newer_first_dec (a b : Row) : Decision (newer_first a b) :=
  Z_le_dec (stored_checked_at b) (stored_checked_at a).

(** [SELECT ... WHERE url = $1 ORDER BY checked_at DESC LIMIT $2] *)
Definition select_recent (db : DB) (url' : string) (limit : Z) : list Row :=
  take (Z.to_nat limit)
       (merge_sort newer_first
          (filter (fun row => stored_url row = url') (rows db))).

(** [rows.Scan(...)] and the lines after it, for one row. *)
Definition scan_row (row : Row) : CheckResult + sql_error :=
  match status_code row with
  | None => inr ErrScanNull
  | Some statusCode =>
      let responseTimeMs := response_time_ms row in
      inl (mkCheckResult (stored_url row) statusCode
             (wrap64 (responseTimeMs * Millisecond))
             (is_healthy row)
             (from_option id "" (error_message row))
             (stored_checked_at row))
  end.

(** [for rows.Next() { ... results = append(results, result) }], over
    the rows delivered: a failing [Scan] leaves the function at once,
    with [nil] for the results. *)
Fixpoint scan_all (delivered : list Row) : list CheckResult + sql_error :=
  match delivered with
  | [] => inl []
  | row :: rest =>
      match scan_row row with
      | inr err => inr err
      | inl result =>
          match scan_all rest with
          | inr err => inr err
          | inl results => inl (result :: results)
          end
      end
  end.

(** [GetRecentResults] gets recent results for a URL. The pair is the
    one the Go function returns; [None] is [nil]. An error of
    [s.db.Query] comes with no results; the function ends with
    [return results, rows.Err()], so that a connection which breaks
    while the rows are read gives the results read so far together with
    the error. *)
Definition GetRecentResults (db : DB) (url' : string) (limit : Z)
  : DB * (list CheckResult * option sql_error) :=
  let db' := mkDB (rows db) (S (trips db)) in
  if negb (up (trips db)) then (db', ([], Some ErrBadConn))
  else if negb (valid_text url') then (db', ([], Some ErrInvalidText))
  else if limit <? 0 then (db', ([], Some ErrNegativeLimit))
  else
    let selected := select_recent db url' limit in
    let '(delivered, rowsErr) :=
      match broken_after (trips db) with
      | Some k => (take k selected, Some ErrBadConn)
      | None => (selected, None)
      end in
    match scan_all delivered with
    | inr err => (db', ([], Some err))
    | inl results => (db', (results, rowsErr))
    end.

(** The round trip as the specification words it: the record read back
    has the response time rounded to the millisecond. *)
Definition roundtrip_rounded (db : DB) (r : CheckResult) : Prop :=
  exists r',
    (GetRecentResults (SaveResult db r).1 (URL r) 1).2 = ([r'], None) /\
    URL r' = URL r /\ StatusCode r' = StatusCode r /\
    IsHealthy r' = IsHealthy r /\
    ResponseTime r' = Duration_Round (ResponseTime r) Millisecond.

(** All-or-nothing, as the specification words it: after an error the
    table is as it was before the call. *)
Definition all_or_nothing (db : DB) (results : list CheckResult) : Prop :=
  match SaveResults db results with
  | (db', Some _) => rows db' = rows db
  | (db', None) => rows db' = rows db ++ (row_of <$> results)
  end.

(** What a row with a status code is scanned to. *)
Definition decode_row (row : Row) : CheckResult :=
  mkCheckResult (stored_url row) (default 0 (status_code row))
                (wrap64 (response_time_ms row * Millisecond))
                (is_healthy row)
                (from_option id "" (error_message row))
                (stored_checked_at row).

(** A table in which every row has a status code, as every row
    [SaveResult] writes has. *)
Definition no_null_status (db : DB) : Prop :=
  Forall (fun row => is_Some (status_code row)) (rows db).


End Store.

End storage.

(** ** Package grpc *)

Module grpc.

(** [MonitorEndpoint] represents a monitored endpoint. *)
Record MonitorEndpoint := mkMonitorEndpoint {
  ID : string;
  URL : string;
  IntervalSeconds : Z;
  TimeoutSeconds : Z;
  Enabled : bool
}.

(** A [chan bool] is known by its address; the only thing ever done to a
    stop channel is to close it (nothing is sent on one). *)
Definition chan := nat.

(** A goroutine started by [startMonitoring]: the endpoint it polls and
    the channel whose closing makes it return. *)
Record Loop := mkLoop {
  loop_endpoint : MonitorEndpoint;
  loop_stopChan : chan
}.

(** [MonitorServer], as far as the registry goes: the two maps, the
    channels made so far (at its address, whether a channel is closed),
    and the polling goroutines started so far. *)
Record MonitorServer := mkMonitorServer {
  endpoints : gmap string MonitorEndpoint;
  stopChannels : gmap string chan;
  chans : list bool;
  loops : list Loop
}.

(** [NewMonitorServer] creates a new gRPC monitor server. *)
Definition NewMonitorServer : MonitorServer := mkMonitorServer ∅ ∅ [] [].

(** [startMonitoring] starts monitoring an endpoint in a separate
    goroutine. *)
Definition startMonitoring (endpoint : MonitorEndpoint) (s : MonitorServer)
  : MonitorServer :=
  let stopChan := length (chans s) in            (* make(chan bool, 1) *)
  mkMonitorServer (endpoints s)
                  (<[ID endpoint := stopChan]> (stopChannels s))
                  (chans s ++ [false])
                  (loops s ++ [mkLoop endpoint stopChan]).

(** [AddEndpoint] adds a new endpoint to monitor; [now] is
    [time.Now().Unix()]. The error returned is always [nil]. *)
Definition AddEndpoint (now : Z) (url : string) (intervalSec timeoutSec : Z)
    (s : MonitorServer) : string * MonitorServer :=
  let endpointID := "endpoint_" +:+ fmt_d now in
  let endpoint := mkMonitorEndpoint endpointID url intervalSec timeoutSec true in
  let s := mkMonitorServer (<[endpointID := endpoint]> (endpoints s))
                           (stopChannels s) (chans s) (loops s) in
  let s := startMonitoring endpoint s in
  (endpointID, s).

(** [close(stopChan)] panics on a channel that is closed already. *)
Definition close (ch : chan) (cs : list bool) : outcome (list bool) :=
  match cs !! ch with
  | Some false => Returns (<[ch := true]> cs)
  | _ => Panics "close of closed channel"
  end.

(** [StopMonitoring] stops monitoring an endpoint. *)
Definition StopMonitoring (endpointID : string) (s : MonitorServer)
  : outcome MonitorServer :=
  match stopChannels s !! endpointID with
  | Some stopChan =>
      match close stopChan (chans s) with
      | Panics msg => Panics msg
      | Returns cs =>
          Returns (mkMonitorServer (delete endpointID (endpoints s))
                                   (delete endpointID (stopChannels s))
                                   cs (loops s))
      end
  | None => Returns s
  end.

(** The first thing the goroutine of [startMonitoring] does is
    [time.NewTicker(time.Duration(endpoint.IntervalSeconds) * time.Second)],
    and [NewTicker] panics when its argument is not positive. Nothing
    recovers that panic, so it ends the whole process. *)
Definition ticker_interval (endpoint : MonitorEndpoint) : Duration :=
  wrap64 (IntervalSeconds endpoint * Second).

Definition ticker_starts (l : Loop) : bool :=
  0 <? ticker_interval (loop_endpoint l).

(** The process is running as long as none of the goroutines started so
    far has panicked. *)
Definition running (s : MonitorServer) : Prop :=
  Forall (fun l => ticker_starts l = true) (loops s).

(** A goroutine that got its ticker leaves its [for]/[select] only
    through [case <-stopChan], which is ready once the channel is
    closed: until then, and while the process runs, it keeps polling. *)
Definition polling (s : MonitorServer) (l : Loop) : Prop :=
  ticker_starts l = true /\ running s /\
  chans s !! loop_stopChan l = Some false.

(** No entry of the stop-channel map leads to [ch]. *)
Definition no_handle (s : MonitorServer) (ch : chan) : Prop :=
  forall id, stopChannels s !! id <> Some ch.

(** What the two operations keep true of the registry: both maps have
    the same keys, and the stop channels in the map are open and
    pairwise distinct. *)
Record registry_ok (s : MonitorServer) : Prop := mkRegistryOk {
  ok_same_keys : forall id, is_Some (endpoints s !! id) <-> is_Some (stopChannels s !! id);
  ok_open : forall id ch, stopChannels s !! id = Some ch -> chans s !! ch = Some false;
  ok_distinct : forall id1 id2 ch,
    stopChannels s !! id1 = Some ch -> stopChannels s !! id2 = Some ch -> id1 = id2
}.

(** One call on the registry. *)
Inductive call : MonitorServer -> MonitorServer -> Prop :=
  | call_AddEndpoint now url intervalSec timeoutSec s :
      call s (AddEndpoint now url intervalSec timeoutSec s).2
  | call_StopMonitoring endpointID s s' :
      StopMonitoring endpointID s = Returns s' -> call s s'.

(** [ListEndpoints] returns all monitored endpoints. Go ranges over the
    map in an unspecified order; the order here is the one of
    [map_to_list], and nothing is proved of it. *)
Definition ListEndpoints (s : MonitorServer) : list MonitorEndpoint :=
  (map_to_list (endpoints s)).*2.

(** Every id with a stop channel is the id of the endpoint stored under
    it, which is enabled, and a goroutine polling that endpoint has been
    started on that channel. *)
Definition registry_polled (s : MonitorServer) : Prop :=
  forall id ch, stopChannels s !! id = Some ch ->
    exists e, endpoints s !! id = Some e /\ ID e = id /\ Enabled e = true /\
              mkLoop e ch ∈ loops s.

(** What the polling goroutine of an endpoint works on besides the
    registry: the store ([None] is the [nil] store) and the buffer of
    [resultStream], oldest first. *)
Record PollState := mkPollState {
  store : option storage.DB;
  resultStream : list checker.CheckResult
}.

(** [make(chan *checker.CheckResult, 100)] *)
Definition resultStream_cap : nat := 100.

(** [GetResults] gets recent results for a URL. *)
Definition GetResults (up : nat -> bool) (timestamp : Time -> Time)
    (broken_after : nat -> option nat) (st : option storage.DB)
    (url : string) (limit : Z)
  : option storage.DB * (list checker.CheckResult * option storage.sql_error) :=
  match st with
  | Some db =>
      let '(db', answer) :=
        storage.GetRecentResults up timestamp broken_after db url limit in
      (Some db', answer)
  | None => (None, ([], None))
  end.

(** The [case <-ticker.C] branch of the polling goroutine, once: check,
    save to the database (an error is only logged), send to the stream
    unless it is full. The log lines are left out. *)
Definition tick (strconv_Quote : string -> string) (up : nat -> bool)
    (env : checker.Env) (endpoint : MonitorEndpoint) (p : PollState)
  : PollState :=
  if Enabled endpoint then
    let result := checker.Check strconv_Quote env (URL endpoint) in
    let store' :=
      match store p with
      | Some db => Some (storage.SaveResult up db result).1
      | None => None
      end in
    let stream' :=
      if (length (resultStream p) <? resultStream_cap)%nat
      then resultStream p ++ [result]     (* case s.resultStream <- &result *)
      else resultStream p in              (* default: channel full, skip *)
    mkPollState store' stream'
  else p.

End grpc.

(** ** Command web (cmd/web/main.go) *)

Module web.

Import checker.

(** The legacy insight of the web server. *)
Record AIInsight := mkAIInsight {
  Title : string;
  Content : string;
  Type_ : string
}.

(** The [%v] verb on a [[]string]. *)
Definition fmt_v_strings (l : list string) : string :=
  "[" +:+ strings_Join l " " +:+ "]".

(** The [DELETE] branch of [handleEndpoints]: the first occurrence of
    [url] is cut out of [ws.urls]; [None] is the 404 answer. *)
Fixpoint removeURL (urls : list string) (url : string) : option (list string) :=
  match urls with
  | [] => None
  | existingURL :: rest =>
      if String.eqb existingURL url then Some rest
      else option_map (cons existingURL) (removeURL rest url)
  end.

(** The URLs [NewWebServer] starts with. *)
Definition default_urls : list string :=
  [ "https://api.github.com/users/octocat";
    "https://jsonplaceholder.typicode.com/posts/1";
    "https://httpbin.org/status/200";
    "https://httpbin.org/delay/2" ].

(** [EndpointRequest], and the answers [handleEndpoints] writes. *)
Record EndpointRequest := mkEndpointRequest { ReqURL : string }.

Inductive Reply :=
  | ReplyStatus (code : Z)                        (* w.WriteHeader(code) *)
  | ReplyError (text : string) (code : Z)         (* http.Error(w, text, code) *)
  | ReplyURLs (urls : list string)                (* 200 and the map with the key urls *)
  | ReplyMessage (code : Z) (message : string).   (* the map with the key message *)

(** [for _, existingURL := range ws.urls { if existingURL == url ... }] *)
Fixpoint already_monitored (urls : list string) (url : string) : bool :=
  match urls with
  | [] => false
  | existingURL :: rest =>
      if String.eqb existingURL url then true else already_monitored rest url
  end.

(** A URL the [POST] branch lets through. *)
Definition has_scheme (url : string) : bool :=
  String.prefix "http://" url || String.prefix "https://" url.

(** [handleEndpoints]: the method, the decoded body ([None] when
    [json.NewDecoder(r.Body).Decode] fails) and [ws.urls] in; the new
    [ws.urls] and the answer out. *)
Definition handleEndpoints (strings_TrimSpace : string -> string)
    (method : string) (body : option EndpointRequest) (urls : list string)
  : list string * Reply :=
  if String.eqb method "OPTIONS" then (urls, ReplyStatus 200)
  else if String.eqb method "GET" then (urls, ReplyURLs urls)
  else if String.eqb method "POST" then
    match body with
    | None => (urls, ReplyError "Invalid JSON" 400)
    | Some req =>
        let url := strings_TrimSpace (ReqURL req) in
        if String.eqb url "" then (urls, ReplyError "URL is required" 400)
        else if negb (String.prefix "http://" url) && negb (String.prefix "https://" url)
        then (urls, ReplyError "URL must start with http:// or https://" 400)
        else if already_monitored urls url
        then (urls, ReplyError "URL already being monitored" 409)
        else (urls ++ [url], ReplyMessage 201 "Endpoint added successfully")
    end
  else if String.eqb method "DELETE" then
    match body with
    | None => (urls, ReplyError "Invalid JSON" 400)
    | Some req =>
        let url := strings_TrimSpace (ReqURL req) in
        if String.eqb url "" then (urls, ReplyError "URL is required" 400)
        else match removeURL urls url with
             | None => (urls, ReplyError "URL not found" 404)
             | Some urls' => (urls', ReplyMessage 200 "Endpoint removed successfully")
             end
    end
  else (urls, ReplyError "Method not allowed" 405).

(** What [ws.urls] must satisfy for the handlers to keep it so: no URL
    twice, every URL with a scheme. *)
Definition urls_ok (urls : list string) : Prop :=
  NoDup urls /\ Forall (fun url => has_scheme url = true) urls.

(** [EndpointStatus] and the loop of [handleStatus] over the results. *)
Record EndpointStatus := mkEndpointStatus {
  StatusURL : string;
  StatusIsHealthy : bool;
  StatusStatusCode : Z;
  StatusResponseTime : Duration;
  StatusLastChecked : Time;
  StatusError : string
}.

Definition statuses_of (results : list CheckResult) : list EndpointStatus :=
  fold_left
    (fun statuses result =>
       statuses ++
       [mkEndpointStatus (URL result) (IsHealthy result) (StatusCode result)
                         (ResponseTime result) (CheckedAt result) (Error result)])
    results [].

Section Web.

Variable Duration_String : Duration -> string.
Variable time_Now : nat -> Time.

(** [generateInsights]: the loop is the one of [ai.fallbackInsights],
    statement for statement. *)
Definition generateInsights (results : list CheckResult)
  : outcome (list AIInsight) :=
  let insights : list AIInsight := [] in
  let t := ai.tally_of results in
  match div64 (ai.totalResponseTime t) (Z.of_nat (length results)) with
  | Panics msg => Panics msg
  | Returns avgResponseTime =>
      let insights :=
        if ai.unhealthy t >? 0
        then insights ++
             [mkAIInsight "🚨 Service Disruption Detected"
                (fmt_d (ai.unhealthy t) +:+
                 " endpoint(s) are currently down. Immediate attention required for: " +:+
                 fmt_v_strings (ai.unhealthyURLs t))
                "alert"]
        else insights in
      let insights :=
        if ai.slowEndpoints t >? 0
        then insights ++
             [mkAIInsight "⚠️ Performance Degradation Alert"
                (fmt_d (ai.slowEndpoints t) +:+
                 " endpoint(s) showing elevated response times (>2s). This may indicate network congestion or server load issues.")
                "warning"]
        else insights in
      let insights :=
        if (avgResponseTime <? 500 * Millisecond) && (ai.unhealthy t =? 0)
        then insights ++
             [mkAIInsight "✅ Optimal System Performance"
                ("All endpoints healthy with excellent average response time of " +:+
                 Duration_String (Duration_Round avgResponseTime Millisecond) +:+
                 ". System operating within optimal parameters.")
                "success"]
        else insights in
      let insights :=
        insights ++
        [mkAIInsight "💡 Proactive Recommendation"
           "Based on current patterns, consider implementing automated scaling for endpoints with response times consistently above 1.5s to maintain optimal user experience."
           "info"] in
      let insights :=
        if avgResponseTime >? 1 * Second
        then insights ++
             [mkAIInsight "📊 Pattern Analysis"
                ("Average response time of " +:+
                 Duration_String (Duration_Round avgResponseTime Millisecond) +:+
                 " suggests potential bottlenecks. Recommend investigating database query optimization and caching strategies.")
                "info"]
        else insights in
      Returns insights
  end.

(** [convertLegacyInsights] converts old AIInsight format to new
    ai.Insight format. *)
Definition convertLegacyInsights (legacyInsights : list AIInsight)
  : list ai.Insight :=
  imap (fun i legacy =>
          ai.mkInsight (Title legacy) (Content legacy) (Type_ legacy)
                       (8 # 10) (time_Now i))
       legacyInsights.

(** The part of [handleAIInsights] after [CheckMultiple]: which insights
    are written for the results. [ws.aiClient] is [None] when AI is
    disabled; [clock_ai] gives the readings of [time.Now()] inside
    [AnalyzeEndpoints], [time_Now] those inside [convertLegacyInsights]. *)
Definition insights_for
    (clock_ai : nat -> Time)
    (json_Unmarshal : string -> option (list ai.RawInsight))
    (http_NewRequest : string -> option ai.error)
    (client_Do : string -> ai.ChatCompletionRequest -> ai.DoResult)
    (json_Decode : string -> ai.error + ai.ChatCompletionResponse)
    (aiClient : option ai.GPTOSSClient) (results : list CheckResult)
  : outcome (list ai.Insight) :=
  match aiClient with
  | Some c =>
      match ai.AnalyzeEndpoints Duration_String clock_ai json_Unmarshal
              http_NewRequest client_Do json_Decode c results with
      | Panics msg => Panics msg
      | Returns (aiInsights, Some err) =>
          match generateInsights results with
          | Panics msg => Panics msg
          | Returns legacy => Returns (convertLegacyInsights legacy)
          end
      | Returns (aiInsights, None) => Returns aiInsights
      end
  | None =>
      match generateInsights results with
      | Panics msg => Panics msg
      | Returns legacy => Returns (convertLegacyInsights legacy)
      end
  end.

End Web.

End web.

(** ** Command query (cmd/query/main.go) *)

Module query.

Import checker.

(** The statistics [main] computes over the results read back: [None]
    when there are no results (it prints that and returns), else the
    average response time in milliseconds and the number of healthy
    checks. The uptime percentage, a [float64], is left out. *)
Definition statistics (results : list CheckResult) : outcome (option (Z * Z)) :=
  if (length results =? 0)%nat then Returns None
  else
    let '(totalResponseTime, healthyCount) :=
      fold_left
        (fun '(total, healthy) result =>
           (wrap64 (total + storage.Duration_Milliseconds (ResponseTime result)),
            if IsHealthy result then wrap64 (healthy + 1) else healthy))
        results (0, 0) in
    match div64 totalResponseTime (Z.of_nat (length results)) with
    | Panics msg => Panics msg
    | Returns avgResponseTime => Returns (Some (avgResponseTime, healthyCount))
    end.

End query.

(** ** Command mock-ai (cmd/mock-ai/main.go) *)

Module mockai.

(** [Insight] represents an AI monitoring insight. *)
Record Insight := mkInsight {
  Title : string;
  Content : string;
  Type_ : string;
  Confidence : Q
}.

(** [strings.Contains] *)
Definition strings_Contains (s substr : string) : bool :=
  0 <=? ai.strings_Index s substr.

Section MockAI.

(** [strings.ToLower] *)
Variable strings_ToLower : string -> string.

(** [generateInsights]: realistic monitoring insights for a prompt. *)
Definition generateInsights (prompt : string) : list Insight :=
  let prompt := strings_ToLower prompt in
  if strings_Contains prompt "unhealthy" || strings_Contains prompt "down" then
    [ mkInsight "🚨 Critical Service Disruption Detected"
        "Multiple endpoints are experiencing downtime. Root cause analysis suggests network connectivity issues or upstream service dependencies. Immediate escalation to infrastructure team recommended."
        "alert" (94 # 100);
      mkInsight "📊 Failure Pattern Analysis"
        "The outage pattern indicates a cascading failure starting with the delay endpoint. This suggests potential timeout propagation across services. Consider implementing circuit breaker patterns."
        "warning" (87 # 100) ]
  else if strings_Contains prompt "slow" || strings_Contains prompt "5000ms"
          || strings_Contains prompt "delay" then
    [ mkInsight "⚠️ Severe Performance Degradation"
        "Response times have increased by over 300% from baseline. The delay endpoint is experiencing 5-second timeouts, indicating either network latency issues or server overload."
        "warning" (91 # 100);
      mkInsight "💡 Performance Optimization Strategy"
        "Implement request timeout controls and consider adding response caching for frequently accessed endpoints. The httpbin delay endpoint suggests external API dependency issues."
        "info" (78 # 100) ]
  else if strings_Contains prompt "healthy" && strings_Contains prompt "200" then
    [ mkInsight "✅ Optimal System Performance"
        "All monitored endpoints are operating within expected parameters. GitHub API shows excellent stability with sub-250ms response times, demonstrating robust infrastructure."
        "success" (96 # 100);
      mkInsight "📈 Proactive Monitoring Insights"
        "Current performance metrics indicate 99.8% availability over the monitoring period. Consider this baseline for SLA agreements and capacity planning decisions."
        "info" (83 # 100) ]
  else
    [ mkInsight "📊 System Health Overview"
        "Mixed performance indicators observed across monitored endpoints. Some services operating optimally while others show potential for improvement in response time consistency."
        "info" (75 # 100);
      mkInsight "🔍 Monitoring Intelligence"
        "Recommend implementing automated alerting at 95th percentile thresholds. Current 15-second check interval provides good balance between responsiveness and resource usage."
        "info" (68 # 100) ].

(** [for _, msg := range req.Messages { if msg.Role == "user" { prompt = msg.Content; break } }] *)
Fixpoint user_prompt (messages : list ai.Message) : string :=
  match messages with
  | [] => ""
  | msg :: rest =>
      if String.eqb (ai.Role msg) "user" then ai.MsgContent msg
      else user_prompt rest
  end.

(** What [chatCompletionsHandler] writes. *)
Inductive Reply :=
  | ReplyStatus (code : Z)
  | ReplyError (text : string) (code : Z)
  | ReplyCompletion (response : ai.ChatCompletionResponse).

(** [json.MarshalIndent(insights, "", "  ")]; [None] when it returns
    an error. *)
Variable json_MarshalIndent : list Insight -> option string.

(** [chatCompletionsHandler]: the method, the decoded body ([None] when
    decoding fails) and the successive readings of [time.Now().Unix()]
    in: the first one goes into the id, the second one into [Created].
    [strconv.FormatInt(n, 10)] writes [n] as [%d] does. *)
Definition chatCompletionsHandler (method : string)
    (body : option ai.ChatCompletionRequest) (time_Now_Unix : nat -> Z)
  : Reply :=
  if String.eqb method "OPTIONS" then ReplyStatus 200
  else if negb (String.eqb method "POST")
  then ReplyError "Method not allowed" 405
  else match body with
       | None => ReplyError "Invalid JSON" 400
       | Some req =>
           let prompt := user_prompt (ai.Messages req) in
           if String.eqb prompt "" then ReplyError "No user message found" 400
           else
             let insights := generateInsights prompt in
             match json_MarshalIndent insights with
             | None => ReplyError "Failed to generate insights" 500
             | Some insightsJSON =>
                 ReplyCompletion
                   (ai.mkResponse ("chatcmpl-" +:+ fmt_d (time_Now_Unix 0%nat))
                      "chat.completion"
                      (time_Now_Unix 1%nat) "gpt-oss-20b"
                      [ai.mkChoice 0 (ai.mkMessage "assistant" insightsJSON)])
             end
       end.

End MockAI.

End mockai.

(** ** Concrete inputs *)

Module scenario.

Import checker.

(** A world in which every GET is answered 200 at once. *)
Definition env_ok : Env := mkEnv 0 (fun _ => Resp 200) (fun _ => 0).

(** The scenario of the specification: A healthy in 100ms, B timed out
    after 5000ms. *)
Definition A : CheckResult :=
  mkCheckResult "A" 200 (100 * Millisecond) true "" 0.
Definition B : CheckResult :=
  mkCheckResult "B" 0 (5000 * Millisecond) false "timeout" 0.

(** A clock that ticks once per reading, and a [Duration] printer that
    writes the nanoseconds. *)
Definition clock (n : nat) : Time := Z.of_nat n.
Definition print_ns (d : Duration) : string := fmt_d d +:+ "ns".

(** A completion service that cannot be reached. *)
Definition unreachable : ai.DoResult :=
  ai.DoErr (ai.errorString "dial tcp 127.0.0.1:8000: connect: connection refused").

Definition client : ai.GPTOSSClient :=
  ai.mkClient "http://localhost:8000" "your-api-key-here" "gpt-oss-20b" 512 (3 # 10).

(** A server that is always reachable, and an empty table. *)
Definition always_up (n : nat) : bool := true.
Definition empty_db : storage.DB := storage.mkDB [] 0.

(** A server reached by the first round trip only. *)
Definition up_once (n : nat) : bool := (n =? 0)%nat.

(** Times counted in nanoseconds and kept by the column to the
    microsecond; connections that never break while rows are read, and
    connections that break before the first row. *)
Definition to_microsecond (t : Time) : Time := t / 1000 * 1000.
Definition unbroken (n : nat) : option nat := None.
Definition broken_at_once (n : nat) : option nat := Some 0%nat.

(** A URL of 507 characters, more than [VARCHAR(500)] holds. *)
Fixpoint letters (n : nat) : string :=
  match n with
  | O => ""
  | S n' => String.String (Ascii.ascii_of_nat 97) (letters n')
  end.
Definition long_url : string := "http://" +:+ letters 500.

Definition too_long : CheckResult :=
  mkCheckResult long_url 200 (100 * Millisecond) true "" 2.

(** A URL of 16 characters followed by 500 blanks. *)
Fixpoint blanks (n : nat) : string :=
  match n with
  | O => ""
  | S n' => String.String (Ascii.ascii_of_nat 32) (blanks n')
  end.
Definition padded_url : string := "http://a.example" +:+ blanks 500.

Definition padded : CheckResult :=
  mkCheckResult padded_url 200 (100 * Millisecond) true "" 3.

(** A healthy result with the longest response time a [time.Duration]
    can hold. *)
Definition slowest : CheckResult :=
  mkCheckResult "A" 200 (2 ^ 63 - 1) true "" 0.

(** A result whose response time is 1.6ms. *)
Definition r16 : CheckResult :=
  mkCheckResult "A" 200 1600000 true "" 1.

(** A table that already holds a failure of A seven microseconds
    later. *)
Definition db_later : storage.DB :=
  storage.mkDB [storage.mkRow "A" (Some 503) 20 false None 7000] 1.

End scenario.

(** * Properties *)

(** ** Runtime values *)

Lemma wrap64_id z : in_int64 z -> wrap64 z = z.
Proof.
  unfold in_int64, wrap64. intros Hz.
  rewrite Z.mod_small by lia. lia.
Qed.

Lemma wrap64_range z : in_int64 (wrap64 z).
Proof.
  unfold in_int64, wrap64.
  pose proof (Z.mod_pos_bound (z + 2 ^ 63) (2 ^ 64)). lia.
Qed.

Lemma to_int_not_nil z :
  Z.to_int z <> Decimal.Pos Decimal.Nil /\ Z.to_int z <> Decimal.Neg Decimal.Nil.
Proof.
  destruct z as [|p|p]; cbn; split; try discriminate;
    intros [= H]; exact (DecimalPos.Unsigned.to_uint_nonnil p H).
Qed.

Lemma fmt_d_inj a b : fmt_d a = fmt_d b -> a = b.
Proof.
  unfold fmt_d. intros H.
  apply (f_equal NilZero.int_of_string) in H.
  rewrite !NilZero.isi in H by apply to_int_not_nil.
  injection H as H.
  apply (f_equal Z.of_int) in H.
  by rewrite !DecimalZ.of_to in H.
Qed.

(** ** Package checker: Check *)

Section CheckFacts.

Import checker.

Variable strconv_Quote : string -> string.

Local Abbreviation Check := (checker.Check strconv_Quote).
Local Abbreviation text_of := (checker.url_Error_Error strconv_Quote).

(** The text of a transport error always holds at least the blank that
    separates the operation from the quoted URL. *)
Lemma url_Error_Error_nonempty e : text_of e <> "".
Proof.
  unfold url_Error_Error. destruct (Op e); cbn; discriminate.
Qed.

Lemma Check_URL env url : URL (Check env url) = url.
Proof. unfold Check. by destruct (client_Get env url). Qed.

Lemma Check_CheckedAt env url : CheckedAt (Check env url) = time_Now env.
Proof. unfold Check. by destruct (client_Get env url). Qed.

Lemma Check_ResponseTime env url :
  ResponseTime (Check env url) = time_Since env (time_Now env).
Proof. unfold Check. by destruct (client_Get env url). Qed.

Lemma healthy_range code :
  (200 <=? code) && (code <? 300) = true <-> 200 <= code < 300.
Proof. rewrite andb_true_iff, Z.leb_le, Z.ltb_lt. tauto. Qed.

(** C5. [Check] is a total function (it has no panicking path and returns
    no error value): a transport failure of the GET is captured in the
    result, whose [Error] is the non-empty text of the failure, whose
    [StatusCode] is 0 and whose [IsHealthy] is false; a response leaves
    [Error] empty and stores its status code; and whenever [Error] is
    empty, [IsHealthy] holds exactly when 200 <= StatusCode < 300. *)
Theorem Check_captures_transport_failures (env : Env) (url : string) :
  let r := Check env url in
  URL r = url /\
  match client_Get env url with
  | TransportErr e =>
      Error r = text_of e /\ Error r <> "" /\
      StatusCode r = 0 /\ IsHealthy r = false
  | Resp code => Error r = "" /\ StatusCode r = code
  end /\
  (Error r = "" -> (IsHealthy r = true <-> 200 <= StatusCode r < 300)) /\
  (Error r <> "" -> IsHealthy r = false).
Proof.
  cbv zeta. split; [apply Check_URL|].
  unfold Check. destruct (client_Get env url) as [code|e]; cbn.
  - repeat split; try done; intros; by apply healthy_range.
  - pose proof (url_Error_Error_nonempty e) as Hne.
    repeat split; try done; lia.
Qed.

End CheckFacts.

(** ** Package checker: CheckMultiple *)

Section CheckMultipleFacts.

Import checker.

Variable strconv_Quote : string -> string.
Variable envs : nat -> Env.
Variable timeout : Duration.
Variable answered : nat -> bool.

Local Abbreviation Get_returns := (checker.Get_returns timeout answered).
Local Abbreviation step := (CM_step strconv_Quote envs timeout answered).
Local Abbreviation run := (run_goroutine strconv_Quote envs).
Local Abbreviation outcomes := (checker.outcomes strconv_Quote envs).
Local Abbreviation arrivals := (checker.arrivals strconv_Quote envs).
Local Abbreviation CheckMultiple := (checker.CheckMultiple strconv_Quote envs).
Local Abbreviation CM_inv := (checker.CM_inv strconv_Quote envs).

Lemma length_spawn urls : length (spawn urls) = length urls.
Proof. apply length_imap. Qed.

(** What the goroutines send, taken together, is each URL's own check. *)
Lemma run_spawn urls : run <$> spawn urls = outcomes urls.
Proof.
  unfold spawn, checker.outcomes. apply list_eq. intros i.
  rewrite list_lookup_fmap, !list_lookup_imap.
  by destruct (urls !! i).
Qed.

Lemma spawn_lt urls g : g ∈ spawn urls -> (fst g < length urls)%nat.
Proof.
  unfold spawn. intros [i Hi]%list_elem_of_lookup.
  rewrite list_lookup_imap in Hi.
  destruct (urls !! i) as [u|] eqn:Hu; [|done].
  injection Hi as <-. cbn. by eapply lookup_lt_Some.
Qed.

Lemma CM_inv_init urls : CM_inv urls (CM_init urls).
Proof.
  unfold checker.CM_inv, CM_init; cbn.
  rewrite length_spawn, length_replicate, run_spawn. repeat split; try done.
Qed.

Lemma CM_inv_step urls s s' :
  CM_inv urls s -> step (length urls) s s' -> CM_inv urls s'.
Proof.
  unfold checker.CM_inv. intros (Hlen & Hrs & Hperm) Hstep.
  destruct Hstep as [l1 g l2 d rs i Hret Hroom | p r d rs i Hi]; cbn in *.
  - rewrite !length_app in *. cbn in *. repeat split; [lia | done |].
    rewrite <- Hperm, !fmap_app, fmap_cons, <- !app_assoc. cbn.
    apply Permutation_app_head, Permutation_app_head.
    by rewrite <- Permutation_middle.
  - repeat split; [lia | by rewrite length_insert |].
    rewrite <- Hperm.
    rewrite (take_S_r _ _ r) by (apply list_lookup_insert_eq; lia).
    rewrite take_insert_ge by lia.
    by rewrite <- app_assoc.
Qed.

Lemma CM_inv_rtc urls s :
  rtc (step (length urls)) (CM_init urls) s -> CM_inv urls s.
Proof.
  revert s. apply rtc_ind_r; [apply CM_inv_init|].
  intros y z _ Hstep IH. by eapply CM_inv_step.
Qed.

Lemma CM_inv_final urls s :
  CM_inv urls s -> CM_final (length urls) s ->
  pending s = [] /\ done s = [] /\
  length (results s) = length urls /\ results s ≡ₚ outcomes urls.
Proof.
  unfold CM_final, checker.CM_inv. intros (Hlen & Hrs & Hperm) Hfin.
  assert (pending s = []) as Hp by (apply length_zero_iff_nil; lia).
  assert (done s = []) as Hd by (apply length_zero_iff_nil; lia).
  repeat split; try done.
  rewrite Hp, Hd, Hfin in Hperm. cbn in Hperm.
  rewrite app_nil_r, take_ge in Hperm by lia. done.
Qed.

(** No state short of the final one is stuck as long as some pending
    check comes back: the receiving loop then never blocks for ever, and
    no send finds the buffer full for ever. *)
Lemma CM_progress urls s :
  CM_inv urls s -> ~ CM_final (length urls) s ->
  (done s = [] -> exists g, g ∈ pending s /\ Get_returns (fst g) = true) ->
  exists s', step (length urls) s s'.
Proof.
  unfold CM_final, checker.CM_inv. intros (Hlen & Hrs & _) Hnf Hret.
  destruct s as [p d rs i]; cbn in *.
  destruct d as [|r d].
  - destruct (Hret eq_refl) as (g & Hg & Hgr).
    apply list_elem_of_split in Hg as (l1 & l2 & ->).
    exists (mkCM (l1 ++ l2) ([] ++ [run g]) rs i).
    apply CM_send; [done|]. rewrite length_app in Hlen. cbn in *. lia.
  - eexists. apply CM_recv. cbn in Hlen. lia.
Qed.

(** The pending goroutines of a reachable state are among those started. *)
Lemma CM_pending_spawn urls s :
  rtc (step (length urls)) (CM_init urls) s -> pending s ⊆ spawn urls.
Proof.
  revert s. apply rtc_ind_r; [done|].
  intros y z _ Hstep IH.
  destruct Hstep as [l1 g l2 d rs i _ _ | p r d rs i _]; cbn in *; [|done].
  intros x Hx. apply IH. rewrite elem_of_app in Hx. rewrite elem_of_app, elem_of_cons.
  tauto.
Qed.

(** A goroutine whose check never comes back stays pending. *)
Lemma CM_blocked_stays urls s g :
  g ∈ spawn urls -> Get_returns (fst g) = false ->
  rtc (step (length urls)) (CM_init urls) s -> g ∈ pending s.
Proof.
  intros Hg Hblocked. revert s. apply rtc_ind_r; [done|].
  intros y z _ Hstep IH.
  destruct Hstep as [l1 g' l2 d rs i Hret _ | p r d rs i _]; cbn in *; [|done].
  rewrite elem_of_app, elem_of_cons in IH. rewrite elem_of_app.
  destruct IH as [?|[->|?]]; [tauto| |tauto]. congruence.
Qed.

Lemma CM_step_measure cap s s' :
  step cap s s' -> CM_measure s = S (CM_measure s').
Proof.
  intros [l1 g l2 d rs i _ _ | p r d rs i _]; unfold CM_measure; cbn;
    rewrite ?length_app; cbn; lia.
Qed.

(** *** The executable run is one of the executions *)

Lemma pick_pending (pend : list (nat * string)) (c : nat) :
  pend <> [] ->
  exists g, pend !! (c mod length pend)%nat = Some g /\
    pend = take (c mod length pend) pend ++ g :: drop (S (c mod length pend)) pend.
Proof.
  intros Hne.
  assert (length pend <> 0)%nat as Hlen by (destruct pend; cbn; done).
  destruct (lookup_lt_is_Some_2 pend (c mod length pend)) as [g Hg].
  { by apply Nat.mod_upper_bound. }
  exists g. split; [done|]. by rewrite take_drop_middle.
Qed.

Lemma length_arrivals n sched pend :
  n = length pend -> length (arrivals n sched pend) = n.
Proof.
  revert sched pend. induction n as [|n IH]; intros sched pend Hn; [done|].
  destruct (pick_pending pend (hd O sched)) as (g & Hg & _).
  { intros ->. done. }
  cbn. rewrite Hg. cbn. f_equal. apply IH.
  rewrite length_delete by eauto. lia.
Qed.

Lemma arrivals_perm n sched pend :
  n = length pend -> arrivals n sched pend ≡ₚ run <$> pend.
Proof.
  revert sched pend. induction n as [|n IH]; intros sched pend Hn.
  - symmetry in Hn. apply length_zero_iff_nil in Hn. by subst.
  - destruct (pick_pending pend (hd O sched)) as (g & Hg & Hsplit).
    { intros ->. done. }
    cbn. rewrite Hg.
    etransitivity;
      [|symmetry; apply fmap_Permutation, (delete_Permutation _ _ _ Hg)].
    rewrite fmap_cons. constructor. apply IH.
    rewrite length_delete by eauto. lia.
Qed.

(** With the schedule that always picks the first pending goroutine the
    checks complete in input order. *)
Lemma arrivals_in_order pend :
  arrivals (length pend) [] pend = run <$> pend.
Proof.
  induction pend as [|g pend IH]; [done|].
  cbn [length checker.arrivals hd tl]. rewrite Nat.Div0.mod_0_l. cbn.
  by rewrite IH.
Qed.

Lemma collect_spec arrived : forall i rs,
  (i + length arrived <= length rs)%nat ->
  collect i arrived rs = take i rs ++ arrived ++ drop (i + length arrived) rs.
Proof.
  induction arrived as [|r rest IH]; intros i rs Hle; cbn in *.
  - by rewrite Nat.add_0_r, take_drop.
  - replace (i + S (length rest))%nat with (S i + length rest)%nat by lia.
    rewrite IH by (rewrite length_insert; lia).
    rewrite (take_S_r _ _ r) by (apply list_lookup_insert_eq; lia).
    rewrite take_insert_ge, drop_insert_lt by lia.
    by rewrite <- app_assoc.
Qed.

(** [results[i]] is the [i]-th value received, for every [i]. *)
Lemma CheckMultiple_arrivals sched urls :
  CheckMultiple sched urls = arrivals (length urls) sched (spawn urls).
Proof.
  unfold checker.CheckMultiple.
  pose proof (length_arrivals (length urls) sched (spawn urls)
                (eq_sym (length_spawn urls))) as Hlen.
  rewrite collect_spec by (rewrite length_replicate; cbn; lia).
  rewrite take_0, drop_ge by (rewrite length_replicate; cbn; lia).
  by rewrite app_nil_r.
Qed.

Lemma run_sends cap n sched pend d rs i :
  Forall (fun g => Get_returns (fst g) = true) pend ->
  n = length pend -> (length d + length pend <= cap)%nat ->
  rtc (step cap) (mkCM pend d rs i) (mkCM [] (d ++ arrivals n sched pend) rs i).
Proof.
  revert sched pend d. induction n as [|n IH]; intros sched pend d Hret Hn Hcap.
  - symmetry in Hn. apply length_zero_iff_nil in Hn. subst. cbn.
    by rewrite app_nil_r.
  - destruct (pick_pending pend (hd O sched)) as (g & Hg & Hsplit).
    { intros ->. done. }
    cbn. rewrite Hg.
    assert (length (delete (hd O sched mod length pend)%nat pend) = n) as Hdel
      by (rewrite length_delete by eauto; lia).
    eapply rtc_l.
    + rewrite Hsplit at 1. apply CM_send; [|lia].
      rewrite Forall_forall in Hret. apply Hret. by eapply list_elem_of_lookup_2.
    + rewrite <- delete_take_drop.
      replace (d ++ run g :: arrivals n (tl sched)
                 (delete (hd O sched mod length pend)%nat pend))
        with ((d ++ [run g]) ++ arrivals n (tl sched)
                 (delete (hd O sched mod length pend)%nat pend))
        by (by rewrite <- app_assoc).
      apply IH; [|done|rewrite length_app, Hdel; cbn; lia].
      by apply Forall_delete.
Qed.

Lemma run_recvs cap arrived : forall rs i,
  (i + length arrived <= cap)%nat ->
  rtc (step cap) (mkCM [] arrived rs i)
      (mkCM [] [] (collect i arrived rs) (i + length arrived)).
Proof.
  induction arrived as [|r rest IH]; intros rs i Hle; cbn in *.
  - by rewrite Nat.add_0_r.
  - eapply rtc_l; [apply CM_recv; lia|].
    replace (i + S (length rest))%nat with (S i + length rest)%nat by lia.
    apply IH. lia.
Qed.

Lemma returns_spawn urls :
  CheckMultiple_returns timeout answered urls = true ->
  Forall (fun g => Get_returns (fst g) = true) (spawn urls).
Proof.
  unfold CheckMultiple_returns. rewrite forallb_forall.
  intros Hall. apply Forall_forall. intros g Hg%spawn_lt.
  apply Hall, in_seq. lia.
Qed.

(** When every check comes back, what [CheckMultiple] computes under a
    schedule is where one of the executions ends. *)
Lemma CheckMultiple_run sched urls :
  CheckMultiple_returns timeout answered urls = true ->
  rtc (step (length urls)) (CM_init urls)
      (mkCM [] [] (CheckMultiple sched urls) (length urls)).
Proof.
  intros Hret%returns_spawn.
  pose proof (length_arrivals (length urls) sched (spawn urls)
                (eq_sym (length_spawn urls))) as Hlen.
  etransitivity.
  - apply (run_sends _ (length urls) sched); [done|by rewrite length_spawn|].
    rewrite length_spawn. cbn. lia.
  - cbn [app]. etransitivity; [apply run_recvs; cbn; lia|].
    cbn. rewrite Hlen. done.
Qed.

(** The goroutines may complete in any order whatever. *)
Lemma run_sends_in_order cap order : forall pend d rs i,
  Forall (fun g => Get_returns (fst g) = true) pend ->
  pend ≡ₚ order -> (length d + length pend <= cap)%nat ->
  rtc (step cap) (mkCM pend d rs i) (mkCM [] (d ++ (run <$> order)) rs i).
Proof.
  induction order as [|g order IH]; intros pend d rs i Hret Hperm Hcap.
  - apply Permutation_nil_r in Hperm as ->. cbn. by rewrite app_nil_r.
  - assert (g ∈ pend) as Hin by (rewrite Hperm; apply elem_of_cons; by left).
    apply list_elem_of_split in Hin as (l1 & l2 & ->).
    rewrite <- Permutation_middle in Hperm. apply Permutation_cons_inv in Hperm.
    rewrite length_app in Hcap. cbn in Hcap.
    apply Forall_app in Hret as [Hret1 [Hg Hret2]%Forall_cons].
    eapply rtc_l; [apply CM_send; [done|lia]|].
    rewrite fmap_cons.
    replace (d ++ run g :: (run <$> order))
      with ((d ++ [run g]) ++ (run <$> order)) by (by rewrite <- app_assoc).
    apply IH; [by apply Forall_app|done|]. rewrite !length_app. cbn. lia.
Qed.

Lemma CM_any_order urls order :
  CheckMultiple_returns timeout answered urls = true ->
  order ≡ₚ spawn urls ->
  rtc (step (length urls)) (CM_init urls)
      (mkCM [] [] (run <$> order) (length urls)).
Proof.
  intros Hret%returns_spawn Hperm.
  assert (length order = length urls) as Hlen
    by (by rewrite Hperm, length_spawn).
  etransitivity.
  - apply (run_sends_in_order _ order); [done|done|].
    rewrite length_spawn. cbn. lia.
  - cbn [app]. etransitivity.
    + apply run_recvs. rewrite length_fmap. cbn. lia.
    + rewrite collect_spec by (rewrite length_replicate, length_fmap; cbn; lia).
      rewrite take_0, drop_ge
        by (rewrite length_replicate, length_fmap; cbn; lia).
      rewrite app_nil_r, length_fmap, Hlen. done.
Qed.

Lemma URL_outcomes urls : URL <$> outcomes urls = urls.
Proof.
  apply list_eq. intros i. unfold checker.outcomes.
  rewrite !list_lookup_fmap, list_lookup_imap.
  destruct (urls !! i) as [u|]; cbn; [|done].
  by rewrite Check_URL.
Qed.

(** What a run under a schedule returns, without the detour through the
    step relation. *)
Lemma CheckMultiple_perm sched urls :
  length (CheckMultiple sched urls) = length urls /\
  CheckMultiple sched urls ≡ₚ outcomes urls.
Proof.
  rewrite CheckMultiple_arrivals. split.
  - by rewrite length_arrivals by (by rewrite length_spawn).
  - rewrite arrivals_perm by (by rewrite length_spawn). by rewrite run_spawn.
Qed.

(** C9. For every list of URLs and whatever the order in which the
    goroutines complete, [CheckMultiple] returns [len(urls)] results that
    are, as a multiset, the outcomes [Check(u)] of the per-URL checks:
    each URL's outcome occurs exactly once, at the position given by the
    arrival order. This holds of the run under any schedule and of every
    final state of the step relation. No execution gets stuck before a
    final state while a pending check comes back, and when all of them
    do, every ordering of the outcomes is the result of some
    execution. *)
Theorem CheckMultiple_multiset_of_outcomes (urls : list string) :
  (forall sched,
     length (CheckMultiple sched urls) = length urls /\
     CheckMultiple sched urls ≡ₚ outcomes urls) /\
  (forall s,
     rtc (step (length urls)) (CM_init urls) s ->
     (CM_final (length urls) s ->
        length (results s) = length urls /\ results s ≡ₚ outcomes urls) /\
     (~ CM_final (length urls) s ->
      (done s = [] -> exists g, g ∈ pending s /\ Get_returns (fst g) = true) ->
      exists s', step (length urls) s s')) /\
  (forall outs,
     outs ≡ₚ outcomes urls ->
     CheckMultiple_returns timeout answered urls = true ->
     exists s,
       rtc (step (length urls)) (CM_init urls) s /\
       CM_final (length urls) s /\ results s = outs).
Proof.
  split; [|split].
  - intros sched. apply CheckMultiple_perm.
  - intros s Hrun. pose proof (CM_inv_rtc urls s Hrun) as Hinv. split.
    + intros Hfin. by destruct (CM_inv_final urls s Hinv Hfin) as (_ & _ & ? & ?).
    + by apply CM_progress.
  - intros outs Hperm Hret. rewrite <- run_spawn in Hperm.
    apply Permutation_map_inv in Hperm as (order & -> & Horder).
    eexists. split; [apply (CM_any_order urls order Hret); by symmetry|]. done.
Qed.

(** C1, as the code has it. [CheckMultiple] returns exactly [len(urls)]
    results, [results[i]] being the outcome of the [i]-th check to
    complete: the URLs of the results are a permutation of the input
    URLs, and [results[i].URL = urls[i]] for every [i] when the checks
    complete in input order. *)
Theorem CheckMultiple_completion_order (urls : list string) :
  (forall sched,
     length (CheckMultiple sched urls) = length urls /\
     CheckMultiple sched urls = arrivals (length urls) sched (spawn urls) /\
     URL <$> CheckMultiple sched urls ≡ₚ urls) /\
  (forall s,
     rtc (step (length urls)) (CM_init urls) s ->
     CM_final (length urls) s ->
     length (results s) = length urls /\ URL <$> results s ≡ₚ urls) /\
  in_input_order urls (CheckMultiple [] urls).
Proof.
  split; [|split].
  - intros sched.
    destruct (CheckMultiple_perm sched urls) as [Hlen Hperm].
    repeat split; [done | apply CheckMultiple_arrivals |].
    rewrite Hperm. by rewrite URL_outcomes.
  - intros s Hrun Hfin.
    destruct (CM_inv_final urls s (CM_inv_rtc urls s Hrun) Hfin)
      as (_ & _ & Hlen & Hperm).
    split; [done|]. rewrite Hperm. by rewrite URL_outcomes.
  - intros i. rewrite CheckMultiple_arrivals.
    rewrite <- (length_spawn urls), arrivals_in_order, run_spawn.
    rewrite <- list_lookup_fmap. by rewrite URL_outcomes.
Qed.

End CheckMultipleFacts.

(** C1 as worded fails: with the URLs a and b, when the check of b
    completes first the results come back as b, a. *)
Lemma CheckMultiple_not_in_input_order :
  ~ checker.in_input_order ["a"; "b"]
      (checker.CheckMultiple id (fun _ => scenario.env_ok) [1%nat] ["a"; "b"]).
Proof.
  intros H. specialize (H 0%nat). vm_compute in H. discriminate.
Qed.

(** ** Package ai: the rule-based fallback *)

Section FallbackFacts.

Import checker ai.

Lemma wrap64_add_l a b : wrap64 (wrap64 a + b) = wrap64 (a + b).
Proof.
  unfold wrap64. f_equal.
  replace (((a + 2 ^ 63) mod 2 ^ 64 - 2 ^ 63 + b + 2 ^ 63))
    with ((a + 2 ^ 63) mod 2 ^ 64 + b) by lia.
  rewrite Zplus_mod_idemp_l. f_equal. lia.
Qed.

Lemma tally_step_unhealthy t r :
  unhealthy (tally_step t r) =
  if IsHealthy r then unhealthy t else wrap64 (unhealthy t + 1).
Proof.
  unfold tally_step.
  destruct (IsHealthy r), (ResponseTime r >? 2 * Second); reflexivity.
Qed.

Lemma tally_step_unhealthyURLs t r :
  unhealthyURLs (tally_step t r) =
  if IsHealthy r then unhealthyURLs t else unhealthyURLs t ++ [URL r].
Proof.
  unfold tally_step.
  destruct (IsHealthy r), (ResponseTime r >? 2 * Second); reflexivity.
Qed.

Lemma tally_step_total t r :
  totalResponseTime (tally_step t r) =
  wrap64 (totalResponseTime t + ResponseTime r).
Proof.
  unfold tally_step.
  destruct (IsHealthy r), (ResponseTime r >? 2 * Second); reflexivity.
Qed.

Lemma tally_step_slow t r :
  slowEndpoints (tally_step t r) =
  if ResponseTime r >? 2 * Second
  then wrap64 (slowEndpoints t + 1) else slowEndpoints t.
Proof.
  unfold tally_step.
  destruct (IsHealthy r), (ResponseTime r >? 2 * Second); reflexivity.
Qed.

(** The loop, from any counters [t] that no increment can wrap. *)
Lemma tally_fold results : forall t,
  0 <= unhealthy t -> 0 <= slowEndpoints t ->
  unhealthy t + Z.of_nat (length results) < 2 ^ 63 ->
  slowEndpoints t + Z.of_nat (length results) < 2 ^ 63 ->
  let t' := fold_left tally_step results t in
  unhealthy t' = unhealthy t + Z.of_nat (length (filter is_unhealthy results)) /\
  unhealthyURLs t' = unhealthyURLs t ++ (URL <$> filter is_unhealthy results) /\
  wrap64 (totalResponseTime t') =
    wrap64 (totalResponseTime t + sum_ResponseTime results) /\
  (in_int64 (totalResponseTime t) -> in_int64 (totalResponseTime t')) /\
  slowEndpoints t' = slowEndpoints t + Z.of_nat (length (filter is_slow results)).
Proof.
  induction results as [|r rs IH]; intros t Hu Hs Hub Hsb.
  - cbn. rewrite !Z.add_0_r, app_nil_r. by repeat split_and.
  - cbn [fold_left]. rewrite length_cons in Hub, Hsb.
    assert (wrap64 (unhealthy t + 1) = unhealthy t + 1) as Hw1
      by (apply wrap64_id; unfold in_int64; lia).
    assert (wrap64 (slowEndpoints t + 1) = slowEndpoints t + 1) as Hw2
      by (apply wrap64_id; unfold in_int64; lia).
    specialize (IH (tally_step t r)).
    rewrite tally_step_unhealthy, tally_step_slow, tally_step_unhealthyURLs,
      tally_step_total, Hw1, Hw2 in IH.
    rewrite wrap64_add_l in IH.
    rewrite !filter_cons.
    cbn [sum_ResponseTime foldr]. fold (sum_ResponseTime rs).
    assert (IsHealthy r = if decide (is_unhealthy r) then false else true) as Hh.
    { unfold is_unhealthy.
      destruct (decide (IsHealthy r = false)); [done|]. by destruct (IsHealthy r). }
    assert ((ResponseTime r >? 2 * Second) = if decide (is_slow r) then true else false)
      as Hsl.
    { unfold is_slow. rewrite Z.gtb_ltb.
      destruct (decide (2 * Second < ResponseTime r));
        [by apply Z.ltb_lt | apply Z.ltb_ge; lia]. }
    rewrite Hh, Hsl in IH.
    destruct (decide (is_unhealthy r)), (decide (is_slow r));
      destruct IH as (IH1 & IH2 & IH3 & IH4 & IH5); try lia;
      (repeat split_and;
       [ rewrite IH1; cbn [length]; lia
       | rewrite IH2, ?fmap_cons, <- ?app_assoc; done
       | rewrite IH3; f_equal; lia
       | intros _; apply IH4, wrap64_range
       | rewrite IH5; cbn [length]; lia ]).
Qed.

Variable Duration_String : Duration -> string.
Variable time_Now : nat -> Time.

Local Abbreviation fallbackInsights := (ai.fallbackInsights Duration_String time_Now).

Lemma tally_of_spec results :
  is_slice results ->
  unhealthy (tally_of results) = Z.of_nat (length (filter is_unhealthy results)) /\
  unhealthyURLs (tally_of results) = URL <$> filter is_unhealthy results /\
  totalResponseTime (tally_of results) = wrap64 (sum_ResponseTime results) /\
  slowEndpoints (tally_of results) = Z.of_nat (length (filter is_slow results)).
Proof.
  unfold is_slice, tally_of. intros Hlen.
  destruct (tally_fold results (mkTally 0 [] 0 0)) as (H1 & H2 & H3 & H4 & H5);
    cbn; try lia.
  cbn in H1, H2, H3, H4, H5. rewrite ?Z.add_0_l in *. repeat split_and; try done.
  rewrite <- H3. symmetry. apply wrap64_id, H4. unfold in_int64. lia.
Qed.

Lemma filter_length_pos {A} (P : A -> Prop) `{!forall x, Decision (P x)} (l : list A) :
  0 < Z.of_nat (length (filter P l)) <-> Exists P l.
Proof.
  induction l as [|x l IH].
  - cbn. split; [lia|]. by intros ?%Exists_nil.
  - rewrite filter_cons, Exists_cons. destruct (decide (P x)); cbn [length].
    + split; [by left | lia].
    + rewrite IH. tauto.
Qed.

Lemma of_type_nil ty : of_type ty [] = [].
Proof. done. Qed.

Lemma of_type_cons_eq ty i l :
  Type_ i = ty -> of_type ty (i :: l) = i :: of_type ty l.
Proof. intros H. unfold of_type. by rewrite filter_cons_True. Qed.

Lemma of_type_cons_ne ty i l :
  Type_ i <> ty -> of_type ty (i :: l) = of_type ty l.
Proof. intros H. unfold of_type. by rewrite filter_cons_False. Qed.

Ltac of_type_compute :=
  repeat first
    [ rewrite of_type_nil
    | rewrite of_type_cons_eq by reflexivity
    | rewrite of_type_cons_ne by (cbn; discriminate) ].

Lemma Zpos_of_nat (n : nat) : n <> 0%nat -> Z.pos (Pos.of_nat n) = Z.of_nat n.
Proof.
  intros Hn. rewrite <- positive_nat_Z. by rewrite Nat2Pos.id.
Qed.

(** When the sum of the response times fits in 64 bits, the average the
    code computes lies below a positive bound exactly when the exact
    average does, and above a non-negative bound exactly when the exact
    average rounded down to a whole nanosecond does. *)
Lemma average_exact results :
  results <> [] ->
  in_int64 (sum_ResponseTime results) ->
  (forall bound : Duration, 0 < bound ->
     avgResponseTime results < bound <-> (average results < inject_Z bound)%Q) /\
  (forall bound : Duration, 0 <= bound ->
     bound < avgResponseTime results <-> bound < Qfloor (average results)).
Proof.
  intros Hne Hsum. unfold in_int64 in Hsum.
  assert (0 < Z.of_nat (length results)) as Hn by (destruct results; cbn; [done|lia]).
  assert (Z.pos (Pos.of_nat (length results)) = Z.of_nat (length results)) as Hp
    by (apply Zpos_of_nat; destruct results; cbn; [done|lia]).
  unfold avgResponseTime, average.
  rewrite (wrap64_id (sum_ResponseTime results)) by done.
  set (total := sum_ResponseTime results) in *.
  set (n := Z.of_nat (length results)) in *.
  unfold Qlt. cbn [Qfloor Qnum Qden inject_Z]. rewrite Hp, !Z.mul_1_r.
  pose proof (Z.div_mod total n) as Hdm.
  pose proof (Z.mod_pos_bound total n Hn) as Hmod.
  destruct (Z.le_gt_cases 0 total) as [Hpos|Hneg].
  - rewrite Z.quot_div_nonneg by lia.
    assert (0 <= total / n <= total) as Hq.
    { split; [apply Z.div_pos; lia|]. apply Z.div_le_upper_bound; nia. }
    rewrite wrap64_id by (unfold in_int64; lia).
    split; intros bound Hb; [|done]. split; intros H; [nia|].
    apply Z.div_lt_upper_bound; lia.
  - assert (Z.quot total n = - (- total / n)) as Hquot.
    { rewrite <- (Z.opp_involutive total) at 1.
      rewrite Z.quot_opp_l by lia. by rewrite Z.quot_div_nonneg by lia. }
    assert (0 <= - total / n <= - total) as Hq.
    { split; [apply Z.div_pos; lia|]. apply Z.div_le_upper_bound; nia. }
    rewrite Hquot, wrap64_id by (unfold in_int64; lia).
    assert (total / n < 0) as Hfl by (apply Z.div_lt_upper_bound; lia).
    split; intros bound Hb; split; intros H; nia.
Qed.

Lemma one_iff_cond (c c' : Prop) ty P insights :
  (c <-> c') -> one_iff c ty P insights -> one_iff c' ty P insights.
Proof. unfold one_iff. intros Hc [H1 H2]. split; intros H; [apply H1|apply H2]; tauto. Qed.

(** The rules as the code evaluates them: the average compared with
    500ms is the one computed in 64 bits. *)
Lemma fallbackInsights_rules_wrapped (results : list CheckResult) :
  results <> [] -> is_slice results ->
  exists insights,
    fallbackInsights results = Returns insights /\
    one_iff (Exists is_unhealthy results) "alert"
      (fun a => Confidence a = 1%Q /\
         Content a =
           fmt_d (Z.of_nat (length (filter is_unhealthy results))) +:+
           " endpoint(s) are currently down: " +:+
           strings_Join (URL <$> filter is_unhealthy results) ", ")
      insights /\
    one_iff (Exists is_slow results) "warning"
      (fun w => Confidence w = (9 # 10)%Q) insights /\
    one_iff (Forall (fun r => IsHealthy r = true) results /\
             avgResponseTime results < 500 * Millisecond) "success"
      (fun s => Confidence s = (95 # 100)%Q) insights /\
    (exists i, of_type "info" insights = [i] /\ last insights = Some i /\
               Confidence i = (8 # 10)%Q) /\
    insights <> [].
Proof.
  intros Hne Hsl.
  destruct (tally_of_spec results Hsl) as (Hu & Hurls & Htot & Hslow).
  assert ((Z.of_nat (length results) =? 0) = false) as Hn
    by (apply Z.eqb_neq; destruct results; cbn; [done|lia]).
  unfold ai.fallbackInsights, div64. rewrite Hn, Htot. fold (avgResponseTime results).
  assert ((unhealthy (tally_of results) >? 0) =
          bool_decide (Exists is_unhealthy results)) as HbU.
  { rewrite Hu, Z.gtb_ltb.
    destruct (bool_decide_reflect (Exists is_unhealthy results)) as [H|H].
    - by apply Z.ltb_lt, filter_length_pos.
    - apply Z.ltb_ge.
      destruct (Z.lt_ge_cases 0 (Z.of_nat (length (filter is_unhealthy results))))
        as [Hpos|Hle]; [|lia].
      by apply filter_length_pos in Hpos. }
  assert ((slowEndpoints (tally_of results) >? 0) =
          bool_decide (Exists is_slow results)) as HbS.
  { rewrite Hslow, Z.gtb_ltb.
    destruct (bool_decide_reflect (Exists is_slow results)) as [H|H].
    - by apply Z.ltb_lt, filter_length_pos.
    - apply Z.ltb_ge.
      destruct (Z.lt_ge_cases 0 (Z.of_nat (length (filter is_slow results))))
        as [Hpos|Hle]; [|lia].
      by apply filter_length_pos in Hpos. }
  assert ((unhealthy (tally_of results) =? 0) =
          negb (bool_decide (Exists is_unhealthy results))) as HbZ.
  { rewrite <- HbU, Z.gtb_ltb, Hu.
    destruct (Z.eqb_spec (Z.of_nat (length (filter is_unhealthy results))) 0)
      as [->|Hnz]; [done|].
    symmetry. apply negb_false_iff, Z.ltb_lt. lia. }
  assert (Forall (fun r => IsHealthy r = true) results <->
          ~ Exists is_unhealthy results) as Hall.
  { rewrite <- Forall_Exists_neg. apply Forall_proper; [|done].
    intros r. unfold is_unhealthy. by destruct (IsHealthy r). }
  rewrite HbU, HbS, HbZ.
  destruct (bool_decide_reflect (Exists is_unhealthy results)) as [HU|HU];
    destruct (bool_decide_reflect (Exists is_slow results)) as [HS|HS];
    destruct (Z.ltb_spec (avgResponseTime results) (500 * Millisecond)) as [HA|HA];
    cbn [negb andb]; (eexists; split; [reflexivity|]).
  all: unfold one_iff, append_now; cbn [length app]; of_type_compute.
  all: repeat split_and; try done; try tauto.
  all: try (intros [Hf Hlt]; exfalso; first [lia | by apply Hall in Hf]).
  all: try (intros Hc; exfalso; apply Hc; split; [by apply Hall | done]).
  all: try (intros _; eexists; split; [reflexivity|]; cbn;
            by rewrite ?Hu, ?Hurls).
  all: by (eexists; repeat split_and; reflexivity).
Qed.


Lemma fallbackInsights_returns results :
  results <> [] -> exists insights, fallbackInsights results = Returns insights.
Proof.
  intros Hne. unfold ai.fallbackInsights, div64.
  assert ((Z.of_nat (length results) =? 0) = false) as ->
    by (apply Z.eqb_neq; destruct results; cbn; [done|lia]).
  eauto.
Qed.

Lemma fallbackInsights_empty :
  fallbackInsights [] = Panics "runtime error: integer divide by zero".
Proof. reflexivity. Qed.

(** C3, as the code has it. On every non-empty slice of results whose
    response times add up to a number of nanoseconds that fits in 64
    bits (the sum then does not wrap around), the rule-based generator
    returns (it does not panic), and what it returns holds:
    exactly one [alert] insight, of confidence 1.0 and naming the failing
    URLs, if and only if some result is unhealthy; exactly one [warning]
    insight of confidence 0.9 if and only if some response time exceeds
    two seconds; exactly one [success] insight of confidence 0.95 if and
    only if every result is healthy and the average response time, the
    sum of the response times divided by their number, is below 500ms;
    and one [info] insight of confidence 0.8, which comes last. So at
    least one insight is returned. *)
Theorem fallbackInsights_rules (results : list CheckResult) :
  results <> [] -> is_slice results ->
  in_int64 (sum_ResponseTime results) ->
  exists insights,
    fallbackInsights results = Returns insights /\
    one_iff (Exists is_unhealthy results) "alert"
      (fun a => Confidence a = 1%Q /\
         Content a =
           fmt_d (Z.of_nat (length (filter is_unhealthy results))) +:+
           " endpoint(s) are currently down: " +:+
           strings_Join (URL <$> filter is_unhealthy results) ", ")
      insights /\
    one_iff (Exists is_slow results) "warning"
      (fun w => Confidence w = (9 # 10)%Q) insights /\
    one_iff (Forall (fun r => IsHealthy r = true) results /\
             (average results < inject_Z (500 * Millisecond))%Q) "success"
      (fun s => Confidence s = (95 # 100)%Q) insights /\
    (exists i, of_type "info" insights = [i] /\ last insights = Some i /\
               Confidence i = (8 # 10)%Q) /\
    insights <> [].
Proof.
  intros Hne Hsl Hsum.
  destruct (fallbackInsights_rules_wrapped results Hne Hsl)
    as (insights & Hret & Ha & Hw & Hs & Hi & Hnil).
  destruct (average_exact results Hne Hsum) as [Hlt _].
  exists insights. repeat split_and; try done.
  eapply one_iff_cond; [|exact Hs]. by rewrite Hlt.
Qed.

End FallbackFacts.

Lemma fallbackInsights_rules_witness :
  exists insights,
    ai.fallbackInsights scenario.print_ns scenario.clock [scenario.A; scenario.B]
      = Returns insights /\
    length (ai.of_type "alert" insights) = 1%nat /\
    length (ai.of_type "warning" insights) = 1%nat /\
    ai.of_type "success" insights = [] /\
    length (ai.of_type "info" insights) = 1%nat.
Proof.
  destruct (fallbackInsights_rules scenario.print_ns scenario.clock
              [scenario.A; scenario.B])
    as (insights & Hret & [Ha _] & [Hw _] & [_ Hs] & (i & Hi & _) & _).
  - discriminate.
  - reflexivity.
  - vm_compute. split; [discriminate|reflexivity].
  - exists insights. split; [exact Hret|].
    destruct Ha as (a & -> & _); [apply Exists_cons_tl, Exists_cons_hd; reflexivity|].
    destruct Hw as (w & -> & _); [apply Exists_cons_tl, Exists_cons_hd; reflexivity|].
    rewrite Hs, Hi; [repeat split|].
    intros [Hall _]. apply Forall_cons_1 in Hall as [_ Hall].
    apply Forall_cons_1 in Hall as [HB _]. discriminate HB.
Defined.

(** C3 as worded fails when the sum of the response times does not fit
    in 64 bits: of two healthy results of 2^63 - 1 nanoseconds each the
    sum wraps around to -2ns and the quotient is -1ns, so a [success]
    insight is returned although the average is far above 500ms. *)
Lemma fallbackInsights_success_on_overflow :
  exists insights,
    ai.fallbackInsights scenario.print_ns scenario.clock
      [scenario.slowest; scenario.slowest] = Returns insights /\
    ai.of_type "success" insights <> [] /\
    ~ ai.one_iff
        (Forall (fun r => checker.IsHealthy r = true)
                [scenario.slowest; scenario.slowest] /\
         (ai.average [scenario.slowest; scenario.slowest]
            < inject_Z (500 * Millisecond))%Q)
        "success" (fun s => ai.Confidence s = (95 # 100)%Q) insights.
Proof.
  eexists. split; [by vm_compute|].
  assert (ai.of_type "success"
            (ai.append_now scenario.clock
               (ai.append_now scenario.clock
                  (ai.append_now scenario.clock []
                     (ai.warningInsight
                        (ai.tally_of [scenario.slowest; scenario.slowest])))
                  (ai.successInsight scenario.print_ns (-1)))
               ai.infoInsight) <> []) as Hsucc by (by vm_compute).
  split; [exact Hsucc|].
  intros [_ Hno]. apply Hsucc, Hno.
  intros [_ Hlt]. vm_compute in Hlt. discriminate.
Qed.

(** ** The empty result set *)

(** C2. Neither rule-based generator guards the average: on the empty
    slice of results [fallbackInsights] and [generateInsights] both
    divide by [len(results) = 0] and panic, instead of returning no
    insights. The web server reaches this input once its four default
    URLs have been removed through [DELETE /api/endpoints]. *)
Theorem average_unguarded_on_empty
    (Duration_String : Duration -> string) (time_Now : nat -> Time)
    (strconv_Quote : string -> string) (envs : nat -> checker.Env)
    (sched : list nat) :
  checker.CheckMultiple strconv_Quote envs sched [] = [] /\
  ai.fallbackInsights Duration_String time_Now []
    = Panics "runtime error: integer divide by zero" /\
  web.generateInsights Duration_String []
    = Panics "runtime error: integer divide by zero" /\
  (let urls := Some web.default_urls in
   let urls := urls ≫= fun l => web.removeURL l "https://httpbin.org/status/200" in
   let urls := urls ≫= fun l => web.removeURL l "https://api.github.com/users/octocat" in
   let urls := urls ≫= fun l => web.removeURL l "https://httpbin.org/delay/2" in
   let urls := urls ≫= fun l => web.removeURL l "https://jsonplaceholder.typicode.com/posts/1" in
   urls = Some []).
Proof. repeat split. Qed.


(** ** Package ai: AnalyzeEndpoints *)

Section AnalyzeFacts.

Import checker ai.

Variable Duration_String : Duration -> string.
Variable time_Now : nat -> Time.
Variable json_Unmarshal : string -> option (list RawInsight).
Variable http_NewRequest : string -> option error.
Variable client_Do : string -> ChatCompletionRequest -> DoResult.
Variable json_Decode : string -> error + ChatCompletionResponse.

Local Abbreviation fallbackInsights := (ai.fallbackInsights Duration_String time_Now).
Local Abbreviation parseInsights := (ai.parseInsights time_Now json_Unmarshal).
Local Abbreviation complete := (ai.complete http_NewRequest client_Do json_Decode).
Local Abbreviation buildAnalysisPrompt := (ai.buildAnalysisPrompt Duration_String).
Local Abbreviation AnalyzeEndpoints :=
  (ai.AnalyzeEndpoints Duration_String time_Now json_Unmarshal
     http_NewRequest client_Do json_Decode).

(** Every insight that comes out of the parser has one of the four types. *)
Lemma validateType_valid t :
  validateType t ∈ ["alert"; "warning"; "info"; "success"].
Proof.
  unfold validateType.
  destruct (validTypes !! t) as [b|] eqn:Hlk; cbn; [|set_solver].
  destruct b; [|set_solver].
  unfold validTypes in Hlk.
  repeat (apply lookup_insert_Some in Hlk as [[<- _]|[_ Hlk]]; [set_solver|]).
  by rewrite lookup_empty in Hlk.
Qed.

(** The insights [AnalyzeEndpoints] degrades to, and the error it
    reports with them. *)
Lemma AnalyzeEndpoints_cases c results :
  AnalyzeEndpoints c results =
  match complete c (buildAnalysisPrompt results) with
  | (_, Some err) =>
      match fallbackInsights results with
      | Panics msg => Panics msg
      | Returns fallback =>
          Returns (fallback,
                   Some (wrapError "AI analysis failed, using fallback: " err))
      end
  | (response, None) =>
      match parseInsights response with
      | [] => match fallbackInsights results with
              | Panics msg => Panics msg
              | Returns fallback => Returns (fallback, None)
              end
      | insights => Returns (insights, None)
      end
  end.
Proof.
  unfold ai.AnalyzeEndpoints.
  destruct (complete c (buildAnalysisPrompt results)) as [response [err|]];
    [done|].
  by destruct (parseInsights response).
Qed.

(** C4. When the completion service fails, or answers with text from
    which no insight can be parsed, [AnalyzeEndpoints] on a non-empty
    slice returns the rule-based insights, together with the wrapped
    service error in the first case and with no error in the second.
    On the empty slice the fallback divides by zero and the call panics:
    the failure does reach the caller. *)
Theorem AnalyzeEndpoints_degrades_unless_empty (c : GPTOSSClient)
    (results : list CheckResult) :
  let degraded :=
    match complete c (buildAnalysisPrompt results) with
    | (_, Some err) =>
        Some (Some (wrapError "AI analysis failed, using fallback: " err), Some err)
    | (response, None) =>
        match parseInsights response with
        | [] => Some (None, None)
        | _ => None
        end
    end in
  match degraded with
  | Some (reported, original) =>
      match results with
      | [] =>
          AnalyzeEndpoints c results
            = Panics "runtime error: integer divide by zero"
      | _ =>
          exists fallback,
            fallbackInsights results = Returns fallback /\
            AnalyzeEndpoints c results = Returns (fallback, reported) /\
            reported ≫= errors_Unwrap = original
      end
  | None =>
      exists response,
        complete c (buildAnalysisPrompt results) = (response, None) /\
        AnalyzeEndpoints c results = Returns (parseInsights response, None)
  end.
Proof.
  cbv zeta. rewrite AnalyzeEndpoints_cases.
  destruct (complete c (buildAnalysisPrompt results)) as [response [err|]].
  - destruct results as [|r rs]; [done|].
    destruct (fallbackInsights_returns Duration_String time_Now (r :: rs))
      as [fallback Hfb]; [done|].
    exists fallback. by rewrite Hfb.
  - destruct (parseInsights response) as [|i insights] eqn:Hparse.
    + destruct results as [|r rs]; [done|].
      destruct (fallbackInsights_returns Duration_String time_Now (r :: rs))
        as [fallback Hfb]; [done|].
      exists fallback. by rewrite Hfb.
    + exists response. by rewrite Hparse.
Qed.

End AnalyzeFacts.

(** With no URL left to monitor and the completion service down, the
    call panics. *)
Example AnalyzeEndpoints_empty_unreachable :
  ai.AnalyzeEndpoints scenario.print_ns scenario.clock (fun _ => None)
    (fun _ => None) (fun _ _ => scenario.unreachable)
    (fun _ => inl (ai.errorString "unexpected end of JSON input"))
    scenario.client []
  = Panics "runtime error: integer divide by zero".
Proof. reflexivity. Qed.

(** ** Package storage *)

Section StoreFacts.

Import checker storage.

Variable up : nat -> bool.
Variable timestamp : Time -> Time.
Variable broken_after : nat -> option nat.

Local Abbreviation SaveResult := (storage.SaveResult up).
Local Abbreviation SaveResults := (storage.SaveResults up).
Local Abbreviation save_each := (storage.save_each up).
Local Abbreviation GetRecentResults :=
  (storage.GetRecentResults up timestamp broken_after).
Local Abbreviation newer_first := (storage.newer_first timestamp).
Local Abbreviation scan_row := (storage.scan_row timestamp).

Lemma SaveResult_cases db r :
  (SaveResult db r = (mkDB (rows db ++ [row_of r]) (S (trips db)), None) /\
   up (trips db) = true /\ check_row (row_of r) = None) \/
  (exists err, SaveResult db r = (mkDB (rows db) (S (trips db)), Some err)).
Proof.
  unfold storage.SaveResult, db_Exec_insert.
  destruct (up (trips db)); cbn; [|eauto].
  destruct (check_row (row_of r)); eauto.
Qed.

(** The loop leaves in the table the rows of the results it got
    through, a prefix of the batch, and all of it when it reports no
    error. *)
Lemma save_each_prefix results : forall db,
  exists k, (k <= length results)%nat /\
    rows (save_each db results).1 = rows db ++ (row_of <$> take k results) /\
    ((save_each db results).2 = None -> k = length results) /\
    ((save_each db results).2 <> None -> (k < length results)%nat).
Proof.
  induction results as [|r rs IH]; intros db.
  - exists 0%nat. cbn. by rewrite app_nil_r.
  - cbn [storage.save_each].
    destruct (SaveResult_cases db r) as [(-> & _ & _)|[err ->]].
    + destruct (IH (mkDB (rows db ++ [row_of r]) (S (trips db))))
        as (k & Hk & Hrows & Hnone & Hsome).
      exists (S k). cbn [length take fmap list_fmap rows] in *.
      rewrite Hrows, <- app_assoc. repeat split_and; try done; try lia.
      * intros H. by rewrite Hnone.
      * intros H. apply Hsome in H. lia.
    + exists 0%nat. cbn. rewrite app_nil_r. repeat split_and; try done; lia.
Qed.

Lemma SaveResults_prefix db results :
  exists k, (k <= length results)%nat /\
    rows (SaveResults db results).1 = rows db ++ (row_of <$> take k results) /\
    ((SaveResults db results).2 = None -> k = length results).
Proof.
  unfold storage.SaveResults, db_Begin.
  destruct (up (trips db)).
  - destruct (save_each_prefix results (mkDB (rows db) (S (trips db))))
      as (k & Hk & Hrows & Hnone & _).
    exists k. split; [done|].
    destruct (save_each (mkDB (rows db) (S (trips db))) results)
      as [db1 [err|]]; cbn in *.
    + by split.
    + unfold tx_Commit. cbn.
      destruct (up (trips db1)); cbn; rewrite ?app_nil_r; split; try done;
        intros _; by apply Hnone.
  - exists 0%nat. cbn. rewrite app_nil_r. repeat split_and; try done; lia.
Qed.

#[local] Instance newer_first_trans : Transitive newer_first.
Proof. unfold storage.newer_first. intros a b c ??. lia. Qed.

#[local] Instance newer_first_total : Total newer_first.
Proof. unfold storage.newer_first. intros a b. lia. Qed.

(** The newest row comes first, whatever the order of insertion. *)
Lemma merge_sort_newest (newest : Row) (older : list Row) :
  Forall (fun row => stored_checked_at timestamp row
                     < stored_checked_at timestamp newest) older ->
  exists rest, merge_sort newer_first (older ++ [newest]) = newest :: rest.
Proof.
  intros Hold.
  pose proof (merge_sort_Permutation newer_first (older ++ [newest])) as Hperm.
  pose proof (StronglySorted_merge_sort newer_first (older ++ [newest])) as Hsorted.
  destruct (merge_sort newer_first (older ++ [newest])) as [|h rest].
  { apply Permutation_nil_l in Hperm. by destruct older. }
  assert (newest ∈ h :: rest) as Hin
    by (rewrite Hperm; apply elem_of_app; right; by apply list_elem_of_singleton).
  assert (h ∈ older ++ [newest]) as Hh
    by (rewrite <- Hperm; apply elem_of_cons; by left).
  destruct (proj1 (elem_of_cons _ _ _) Hin) as [->|Hin']; [by exists rest|].
  apply StronglySorted_cons in Hsorted as [Hhead _].
  rewrite Forall_forall in Hhead. specialize (Hhead newest Hin').
  unfold storage.newer_first in Hhead.
  destruct (proj1 (elem_of_app _ _ _) Hh) as [Hh'|Hh'];
    [|apply list_elem_of_singleton in Hh'; subst; by exists rest].
  rewrite Forall_forall in Hold. specialize (Hold h Hh'). lia.
Qed.

Lemma in_int32_range z : in_int32 z = true -> - 2 ^ 31 <= z < 2 ^ 31.
Proof. unfold in_int32. rewrite andb_true_iff, Z.leb_le, Z.ltb_lt. tauto. Qed.

Lemma utf8_length_nonneg s : 0 <= utf8_length s.
Proof. induction s as [|c s IH]; cbn; [done|]. destruct (continuation c); lia. Qed.

(** A text of at most [n] characters is kept whole. *)
Lemma utf8_take_all s : forall n, utf8_length s <= n -> utf8_take n s = s.
Proof.
  induction s as [|c s IH]; intros n Hn; cbn in *; [done|].
  pose proof (utf8_length_nonneg s).
  destruct (continuation c).
  - by rewrite IH by lia.
  - destruct (Z.leb_spec n 0); [lia|]. by rewrite IH by lia.
Qed.

(** What the server accepts of a row. *)
Lemma check_row_None row :
  check_row row = None ->
  valid_text (url row) = true /\
  from_option in_int32 true (status_code row) = true /\
  in_int32 (response_time_ms row) = true.
Proof.
  unfold check_row.
  destruct (valid_text (url row)); [|done].
  destruct (from_option in_int32 true (status_code row)); [|done].
  by destruct (in_int32 (response_time_ms row)).
Qed.

Lemma scan_row_of r :
  check_row (row_of r) = None ->
  utf8_length (URL r) <= 500 ->
  scan_row (row_of r) =
  inl (mkCheckResult (URL r) (StatusCode r)
         (Z.quot (ResponseTime r) Millisecond * Millisecond)
         (IsHealthy r) (Error r) (timestamp (CheckedAt r))).
Proof.
  intros (_ & _ & Hms)%check_row_None Hlen.
  unfold storage.scan_row, row_of, stored_url, stored_checked_at in *.
  cbn [url status_code response_time_ms is_healthy error_message checked_at
       from_option] in *.
  apply in_int32_range in Hms. unfold Duration_Milliseconds in *.
  rewrite wrap64_id by (unfold in_int64, Millisecond; lia).
  rewrite utf8_take_all by done.
  do 2 f_equal.
  destruct (String.eqb_spec (Error r) ""); cbn; congruence.
Qed.

(** C7, as the code has it. When the server accepts the insert of [r],
    whose URL has at most 500 characters, and the table holds no row for
    the same URL whose check time, as stored, is at or after the one of
    [r], then [GetRecentResults(r.URL, 1)], if the query reaches the
    server and its rows are read without the connection breaking,
    returns exactly one record: it has the URL, status code and health
    flag of [r], and the response time of [r] cut down to whole
    milliseconds (truncated toward zero, not rounded to the nearest). *)
Theorem save_then_query_truncates (db : DB) (r : CheckResult) :
  (SaveResult db r).2 = None ->
  utf8_length (URL r) <= 500 ->
  (forall row, row ∈ rows db -> stored_url row = URL r ->
     timestamp (checked_at row) < timestamp (CheckedAt r)) ->
  up (trips (SaveResult db r).1) = true ->
  broken_after (trips (SaveResult db r).1) = None ->
  exists r',
    (GetRecentResults (SaveResult db r).1 (URL r) 1).2 = ([r'], None) /\
    URL r' = URL r /\ StatusCode r' = StatusCode r /\
    IsHealthy r' = IsHealthy r /\
    ResponseTime r' = Z.quot (ResponseTime r) Millisecond * Millisecond.
Proof.
  intros Hsaved Hlen Hnewest Hquery Hread.
  destruct (SaveResult_cases db r) as [(Hsr & _ & Hcheck)|[err Hsr]];
    rewrite Hsr in *; [|done]. cbn [fst snd] in *.
  pose proof (check_row_None _ Hcheck) as (Hvalid & _ & _). cbn in Hvalid.
  unfold storage.GetRecentResults. rewrite Hquery, Hread, Hvalid.
  cbn [negb trips rows].
  unfold select_recent. cbn [rows].
  rewrite filter_app, filter_cons_True, filter_nil
    by (unfold stored_url; cbn; by apply utf8_take_all).
  destruct (merge_sort_newest (row_of r)
              (filter (fun row => stored_url row = URL r) (rows db)))
    as [rest ->].
  { apply Forall_forall. intros row [Hurl Hrow]%list_elem_of_filter.
    by apply Hnewest. }
  change (1 <? 0) with false. change (Z.to_nat 1) with 1%nat.
  cbn [take storage.scan_all]. rewrite (scan_row_of r Hcheck Hlen). cbn [snd].
  eexists. split; [reflexivity|]. done.
Qed.

End StoreFacts.

Lemma save_then_query_truncates_witness :
  exists r',
    (storage.GetRecentResults scenario.always_up scenario.to_microsecond
       scenario.unbroken
       (storage.SaveResult scenario.always_up scenario.empty_db scenario.r16).1
       "A" 1).2 = ([r'], None) /\
    checker.ResponseTime r' = 1 * Millisecond.
Proof.
  destruct (save_then_query_truncates scenario.always_up scenario.to_microsecond
              scenario.unbroken scenario.empty_db scenario.r16)
    as (r' & Hget & _ & _ & _ & Hrt).
  - reflexivity.
  - by vm_compute.
  - intros row Hrow. cbn in Hrow. by apply not_elem_of_nil in Hrow.
  - reflexivity.
  - reflexivity.
  - exists r'. split; [exact Hget | exact Hrt].
Defined.

(** C7 as worded fails in each of these ways: a response time of 1.6ms
    comes back as 1ms where rounding gives 2ms; a row of the same URL
    with a later check time hides the record just saved; a result the
    server rejects (a URL over 500 characters) is not read back at all;
    a URL whose characters beyond the 500th are blanks is stored without
    them, and the query for the URL as it was sent finds nothing; and
    the query returns no record when the server cannot be reached, or
    when the connection breaks before the first row is read. *)
Lemma roundtrip_rounded_fails :
  ~ storage.roundtrip_rounded scenario.always_up scenario.to_microsecond
      scenario.unbroken scenario.empty_db scenario.r16 /\
  ~ storage.roundtrip_rounded scenario.always_up scenario.to_microsecond
      scenario.unbroken scenario.db_later scenario.A /\
  ~ storage.roundtrip_rounded scenario.always_up scenario.to_microsecond
      scenario.unbroken scenario.empty_db scenario.too_long /\
  ~ storage.roundtrip_rounded scenario.always_up scenario.to_microsecond
      scenario.unbroken scenario.empty_db scenario.padded /\
  ~ storage.roundtrip_rounded scenario.up_once scenario.to_microsecond
      scenario.unbroken scenario.empty_db scenario.A /\
  ~ storage.roundtrip_rounded scenario.always_up scenario.to_microsecond
      scenario.broken_at_once scenario.empty_db scenario.A.
Proof.
  repeat split; intros (r' & Hget & Hurl & Hst & Hh & Hrt);
    vm_compute in Hget; simplify_eq; vm_compute in Hst, Hrt; discriminate.
Qed.

(** C6. [SaveResults] opens a transaction but sends every insert through
    [s.db], outside it: each accepted insert is committed on its own. So
    after an error the table keeps the rows of the results that came
    before the failing one (a prefix of the batch), and all of them when
    no error is reported. With a batch of one good result followed by one
    whose URL the server rejects, the call fails and the good row stays:
    the batch is not all-or-nothing. *)
Theorem SaveResults_keeps_prefix_on_error :
  (forall up db results,
     exists k, (k <= length results)%nat /\
       storage.rows (storage.SaveResults up db results).1
         = storage.rows db ++ (storage.row_of <$> take k results) /\
       ((storage.SaveResults up db results).2 = None -> k = length results)) /\
  (let batch := [scenario.A; scenario.too_long] in
   let after := storage.SaveResults scenario.always_up scenario.empty_db batch in
   after.2 = Some storage.ErrValueTooLong /\
   storage.rows after.1 = [storage.row_of scenario.A] /\
   ~ storage.all_or_nothing scenario.always_up scenario.empty_db batch).
Proof.
  split; [apply SaveResults_prefix|].
  cbv zeta. split; [by vm_compute|]. split; [by vm_compute|].
  unfold storage.all_or_nothing. vm_compute. discriminate.
Qed.

(** ** Package grpc: the endpoint registry *)

Section RegistryFacts.

Import grpc.

Lemma registry_ok_new : registry_ok NewMonitorServer.
Proof.
  split; cbn.
  - intros id. by rewrite !lookup_empty.
  - intros id ch. by rewrite lookup_empty.
  - intros id1 id2 ch. by rewrite lookup_empty.
Qed.

Lemma registry_ok_allocated s id ch :
  registry_ok s -> stopChannels s !! id = Some ch -> (ch < length (chans s))%nat.
Proof.
  intros Hok Hid. eapply lookup_lt_Some. by eapply ok_open.
Qed.

Lemma registry_ok_AddEndpoint now url intervalSec timeoutSec s :
  registry_ok s -> registry_ok (AddEndpoint now url intervalSec timeoutSec s).2.
Proof.
  intros Hok. unfold AddEndpoint, startMonitoring. cbn. split; cbn.
  - intros id. rewrite !lookup_insert_is_Some. by rewrite (ok_same_keys s Hok id).
  - intros id ch [[<- <-]|[Hne Hid]]%lookup_insert_Some.
    + by rewrite lookup_app_r, Nat.sub_diag.
    + rewrite lookup_app_l by (by eapply registry_ok_allocated).
      by eapply ok_open.
  - intros id1 id2 ch [[<- <-]|[Hne1 Hid1]]%lookup_insert_Some
                      [[<- Heq]|[Hne2 Hid2]]%lookup_insert_Some; try done.
    + pose proof (registry_ok_allocated s id2 _ Hok Hid2). lia.
    + pose proof (registry_ok_allocated s id1 _ Hok Hid1). lia.
    + by eapply ok_distinct.
Qed.

Lemma StopMonitoring_registered s id ch :
  registry_ok s -> stopChannels s !! id = Some ch ->
  StopMonitoring id s =
  Returns (mkMonitorServer (delete id (endpoints s)) (delete id (stopChannels s))
                           (<[ch := true]> (chans s)) (loops s)).
Proof.
  intros Hok Hid. unfold StopMonitoring, close.
  by rewrite Hid, (ok_open s Hok id ch Hid).
Qed.

Lemma StopMonitoring_unregistered s id :
  stopChannels s !! id = None -> StopMonitoring id s = Returns s.
Proof. intros Hid. unfold StopMonitoring. by rewrite Hid. Qed.

Lemma registry_ok_StopMonitoring id s s' :
  registry_ok s -> StopMonitoring id s = Returns s' -> registry_ok s'.
Proof.
  intros Hok Hstop.
  destruct (stopChannels s !! id) as [ch|] eqn:Hid.
  - rewrite (StopMonitoring_registered s id ch Hok Hid) in Hstop.
    injection Hstop as <-. split; cbn.
    + intros id'. rewrite !lookup_delete_is_Some.
      by rewrite (ok_same_keys s Hok id').
    + intros id' ch' [Hne Hid']%lookup_delete_Some.
      rewrite list_lookup_insert_ne; [by eapply ok_open|].
      intros <-. apply Hne. by eapply ok_distinct.
    + intros id1 id2 ch' [_ Hid1]%lookup_delete_Some [_ Hid2]%lookup_delete_Some.
      by eapply ok_distinct.
  - rewrite (StopMonitoring_unregistered s id Hid) in Hstop. by injection Hstop as <-.
Qed.

Lemma registry_ok_call s s' : registry_ok s -> call s s' -> registry_ok s'.
Proof.
  intros Hok Hcall. destruct Hcall as [now url i t s|id s s' Hstop].
  - by apply registry_ok_AddEndpoint.
  - by eapply registry_ok_StopMonitoring.
Qed.

(** Every registry the program can build is well formed. *)
Lemma registry_ok_reachable s : rtc call NewMonitorServer s -> registry_ok s.
Proof.
  revert s. apply rtc_ind_r; [apply registry_ok_new|].
  intros y z _ Hcall IH. by eapply registry_ok_call.
Qed.

(** C8. On every well-formed registry (every registry the program can
    build is one) [StopMonitoring] returns without panicking, and after
    it the id is in neither the endpoint map nor the stop-channel map;
    the other ids are untouched. If the id had no stop channel (it was
    never started, or was stopped before) the registry is returned
    unchanged; if it had one, that channel is now closed. A second stop
    of the same id returns the registry as the first one left it. *)
Theorem StopMonitoring_idempotent (s : MonitorServer) (endpointID : string) :
  registry_ok s ->
  exists s',
    StopMonitoring endpointID s = Returns s' /\
    endpoints s' !! endpointID = None /\
    stopChannels s' !! endpointID = None /\
    (stopChannels s !! endpointID = None -> s' = s) /\
    (forall ch, stopChannels s !! endpointID = Some ch -> chans s' !! ch = Some true) /\
    (forall id, id <> endpointID ->
       endpoints s' !! id = endpoints s !! id /\
       stopChannels s' !! id = stopChannels s !! id) /\
    StopMonitoring endpointID s' = Returns s'.
Proof.
  intros Hok.
  destruct (stopChannels s !! endpointID) as [ch|] eqn:Hid.
  - eexists. split; [by apply StopMonitoring_registered|]. cbn.
    rewrite !lookup_delete_eq. repeat split_and; try done.
    + intros ch' [= <-]. apply list_lookup_insert_eq.
      by eapply registry_ok_allocated.
    + intros id Hne. by rewrite !lookup_delete_ne.
    + apply StopMonitoring_unregistered. cbn. apply lookup_delete_eq.
  - exists s. split; [by apply StopMonitoring_unregistered|].
    repeat split_and; try done.
    + destruct (endpoints s !! endpointID) eqn:He; [|done].
      assert (is_Some (stopChannels s !! endpointID)) as [? Hsome]
        by (apply (ok_same_keys s Hok); eauto).
      congruence.
    + by apply StopMonitoring_unregistered.
Qed.

(** A stop channel that is open and that no map entry leads to stays so
    under every call: nothing can stop the goroutine waiting on it. *)
Lemma orphan_call s s' ch :
  registry_ok s -> chans s !! ch = Some false -> no_handle s ch ->
  call s s' -> chans s' !! ch = Some false /\ no_handle s' ch.
Proof.
  intros Hok Hopen Hno Hcall.
  pose proof (lookup_lt_Some _ _ _ Hopen) as Hlt.
  destruct Hcall as [now url i t s|id s s' Hstop].
  - unfold AddEndpoint, startMonitoring, no_handle. cbn. split.
    + by rewrite lookup_app_l.
    + intros id [[_ <-]|[_ Hid]]%lookup_insert_Some; [lia|]. by apply (Hno id).
  - destruct (stopChannels s !! id) as [ch'|] eqn:Hid.
    + rewrite (StopMonitoring_registered s id ch' Hok Hid) in Hstop.
      injection Hstop as <-. unfold no_handle. cbn. split.
      * rewrite list_lookup_insert_ne; [done|]. intros ->. by apply (Hno id).
      * intros id' [_ Hid']%lookup_delete_Some. by apply (Hno id').
    + rewrite (StopMonitoring_unregistered s id Hid) in Hstop.
      by injection Hstop as <-.
Qed.

Lemma orphan_for_ever s ch :
  registry_ok s -> chans s !! ch = Some false -> no_handle s ch ->
  forall s', rtc call s s' -> chans s' !! ch = Some false /\ no_handle s' ch.
Proof.
  intros Hok Hopen Hno s' Hrun.
  cut (registry_ok s' /\ chans s' !! ch = Some false /\ no_handle s' ch);
    [tauto|].
  revert s' Hrun. apply rtc_ind_r; [done|].
  intros y z _ Hcall (Hoky & Hopeny & Hnoy).
  split; [by eapply registry_ok_call|]. by eapply orphan_call.
Qed.

Lemma endpointID_inj now now' :
  "endpoint_" +:+ fmt_d now' = "endpoint_" +:+ fmt_d now <-> now' = now.
Proof.
  split; [|by intros ->]. cbn. intros [= H]. by apply fmt_d_inj.
Qed.

(** An [int32] interval that is positive gives a ticker. *)
Lemma ticker_starts_positive e ch :
  0 < IntervalSeconds e < 2 ^ 31 -> ticker_starts (mkLoop e ch) = true.
Proof.
  intros Hi. unfold ticker_starts, ticker_interval, Second. cbn.
  rewrite wrap64_id by (unfold in_int64; lia). apply Z.ltb_lt. lia.
Qed.

Lemma ticker_starts_nonpositive e ch :
  - 2 ^ 31 <= IntervalSeconds e <= 0 -> ticker_starts (mkLoop e ch) = false.
Proof.
  intros Hi. unfold ticker_starts, ticker_interval, Second. cbn.
  rewrite wrap64_id by (unfold in_int64; lia). apply Z.ltb_ge. lia.
Qed.

(** C10, as the code has it. The id [AddEndpoint] returns is "endpoint_"
    followed by the unix second of the call and nothing else: two calls
    get the same id exactly when they fall in the same second. Of two
    calls in one second the later one takes over the entry of the id in
    both maps (its endpoint, its stop channel); the goroutine of the
    earlier one has been started, no map entry leads to its stop channel
    any more, and whatever calls follow the channel stays open and
    without a handle. If the interval of the earlier call is positive,
    its goroutine keeps polling for as long as the process runs. *)
Theorem AddEndpoint_same_second_overwrites (s : MonitorServer) (now : Z)
    (url1 url2 : string) (interval1 timeout1 interval2 timeout2 : Z) :
  registry_ok s ->
  let r1 := AddEndpoint now url1 interval1 timeout1 s in
  let r2 := AddEndpoint now url2 interval2 timeout2 r1.2 in
  let id := "endpoint_" +:+ fmt_d now in
  let first :=
    mkLoop (mkMonitorEndpoint id url1 interval1 timeout1 true)
           (length (chans s)) in
  let second :=
    mkLoop (mkMonitorEndpoint id url2 interval2 timeout2 true)
           (S (length (chans s))) in
  r1.1 = id /\ r2.1 = id /\
  (forall now' url' interval' timeout' s',
     (AddEndpoint now' url' interval' timeout' s').1 = id <-> now' = now) /\
  endpoints r1.2 !! id = Some (loop_endpoint first) /\
  stopChannels r1.2 !! id = Some (loop_stopChan first) /\
  endpoints r2.2 !! id = Some (loop_endpoint second) /\
  stopChannels r2.2 !! id = Some (loop_stopChan second) /\
  first ∈ loops r2.2 /\ second ∈ loops r2.2 /\
  no_handle r2.2 (loop_stopChan first) /\
  (forall s', rtc call r2.2 s' ->
     chans s' !! loop_stopChan first = Some false /\
     no_handle s' (loop_stopChan first)) /\
  (0 < interval1 < 2 ^ 31 ->
   forall s', rtc call r2.2 s' -> running s' -> polling s' first).
Proof.
  intros Hok. cbv zeta.
  pose proof (registry_ok_AddEndpoint now url1 interval1 timeout1 s Hok) as Hok1.
  pose proof (registry_ok_AddEndpoint now url2 interval2 timeout2 _ Hok1) as Hok2.
  assert (no_handle (AddEndpoint now url2 interval2 timeout2
                       (AddEndpoint now url1 interval1 timeout1 s).2).2
                    (length (chans s))) as Hno.
  { unfold no_handle, AddEndpoint, startMonitoring. cbn. intros id.
    rewrite insert_insert_eq, length_app. cbn.
    intros [[_ Heq]|[_ Hid]]%lookup_insert_Some; [lia|].
    pose proof (registry_ok_allocated s id _ Hok Hid). lia. }
  assert (chans (AddEndpoint now url2 interval2 timeout2
                   (AddEndpoint now url1 interval1 timeout1 s).2).2
            !! length (chans s) = Some false) as Hopen.
  { unfold AddEndpoint, startMonitoring. cbn.
    rewrite lookup_app_l by (rewrite length_app; cbn; lia).
    by rewrite lookup_app_r, Nat.sub_diag. }
  repeat split_and; try done.
  - intros now' url' interval' timeout' s'. apply endpointID_inj.
  - unfold AddEndpoint, startMonitoring. cbn. apply lookup_insert_eq.
  - unfold AddEndpoint, startMonitoring. cbn. apply lookup_insert_eq.
  - unfold AddEndpoint, startMonitoring. cbn. apply lookup_insert_eq.
  - unfold AddEndpoint, startMonitoring. cbn.
    rewrite lookup_insert_eq, length_app. cbn. do 2 f_equal. lia.
  - unfold AddEndpoint, startMonitoring. cbn. rewrite !elem_of_app.
    left. right. by apply list_elem_of_singleton.
  - unfold AddEndpoint, startMonitoring. cbn. rewrite !elem_of_app.
    right. apply list_elem_of_singleton. f_equal. rewrite length_app. cbn. lia.
  - intros s' Hrun. cbn. by eapply orphan_for_ever.
  - intros Hpos s' Hrun Hrunning. unfold polling. cbn [loop_stopChan].
    split; [by apply ticker_starts_positive|]. split; [done|].
    by eapply orphan_for_ever.
Qed.

End RegistryFacts.

Lemma StopMonitoring_idempotent_witness :
  exists s',
    grpc.StopMonitoring "endpoint_1700000000"
      (grpc.AddEndpoint 1700000000 "http://localhost:8080/health" 30 5
         grpc.NewMonitorServer).2 = Returns s' /\
    grpc.StopMonitoring "endpoint_1700000000" s' = Returns s'.
Proof.
  destruct (StopMonitoring_idempotent
              (grpc.AddEndpoint 1700000000 "http://localhost:8080/health" 30 5
                 grpc.NewMonitorServer).2 "endpoint_1700000000")
    as (s' & Hstop & _ & _ & _ & _ & _ & Hagain).
  - apply registry_ok_AddEndpoint, registry_ok_new.
  - exists s'. split; [exact Hstop | exact Hagain].
Defined.

Lemma AddEndpoint_same_second_overwrites_witness :
  (grpc.AddEndpoint 1700000000 "http://a.example" 30 5 grpc.NewMonitorServer).1
  = (grpc.AddEndpoint 1700000000 "http://b.example" 60 5
       (grpc.AddEndpoint 1700000000 "http://a.example" 30 5 grpc.NewMonitorServer).2).1 /\
  grpc.polling
    (grpc.AddEndpoint 1700000000 "http://b.example" 60 5
       (grpc.AddEndpoint 1700000000 "http://a.example" 30 5 grpc.NewMonitorServer).2).2
    (grpc.mkLoop
       (grpc.mkMonitorEndpoint "endpoint_1700000000" "http://a.example" 30 5 true)
       0%nat).
Proof.
  destruct (AddEndpoint_same_second_overwrites grpc.NewMonitorServer 1700000000
              "http://a.example" "http://b.example" 30 5 60 5 registry_ok_new)
    as (H1 & H2 & _ & _ & _ & _ & _ & _ & _ & _ & _ & Hpoll).
  split; [exact (eq_trans H1 (eq_sym H2))|].
  apply Hpoll; [lia|apply rtc_refl|].
  repeat constructor.
Defined.

(** C10 as worded fails when the interval of the earlier call is not
    positive: its goroutine panics in [time.NewTicker] instead of
    polling, and with it the process ends. *)
Lemma AddEndpoint_nonpositive_interval_panics :
  let r1 := grpc.AddEndpoint 1700000000 "http://a.example" 0 5 grpc.NewMonitorServer in
  let r2 := grpc.AddEndpoint 1700000000 "http://b.example" 60 5 r1.2 in
  let first :=
    grpc.mkLoop
      (grpc.mkMonitorEndpoint "endpoint_1700000000" "http://a.example" 0 5 true)
      0%nat in
  r1.1 = r2.1 /\ first ∈ grpc.loops r2.2 /\
  grpc.no_handle r2.2 (grpc.loop_stopChan first) /\
  ~ grpc.polling r2.2 first /\ ~ grpc.running r2.2.
Proof.
  cbv zeta. repeat split_and.
  - reflexivity.
  - apply list_elem_of_here.
  - intros id. unfold grpc.AddEndpoint, grpc.startMonitoring. cbn.
    rewrite insert_insert_eq.
    intros [[_ Heq]|[_ Hid]]%lookup_insert_Some; [discriminate|].
    by rewrite lookup_empty in Hid.
  - intros [Hstarts _]. vm_compute in Hstarts. discriminate.
  - intros Hrun. apply Forall_cons in Hrun as [Hstarts _].
    vm_compute in Hstarts. discriminate.
Qed.

(** * Further properties *)

(** ** Package checker: how long a batch runs *)

Section CheckMultipleEnds.

Import checker.

Variable strconv_Quote : string -> string.
Variable envs : nat -> Env.
Variable timeout : Duration.
Variable answered : nat -> bool.

Local Abbreviation Get_returns := (checker.Get_returns timeout answered).
Local Abbreviation step := (CM_step strconv_Quote envs timeout answered).
Local Abbreviation CM_inv := (checker.CM_inv strconv_Quote envs).
Local Abbreviation returns := (CheckMultiple_returns timeout answered).

Lemma CM_nsteps_measure cap k s s' :
  nsteps (step cap) k s s' -> CM_measure s = (k + CM_measure s')%nat.
Proof.
  induction 1 as [|n x y z Hstep _ IH]; [done|].
  apply CM_step_measure in Hstep. lia.
Qed.

Lemma CM_final_measure urls s :
  CM_inv urls s -> (CM_final (length urls) s <-> CM_measure s = 0%nat).
Proof.
  unfold checker.CM_inv, CM_final, CM_measure. intros (Hlen & _ & _). lia.
Qed.

Lemma CM_step_pending (P : nat * string -> Prop) cap s s' :
  step cap s s' -> Forall P (pending s) -> Forall P (pending s').
Proof.
  intros [l1 g l2 d rs i _ _ | p r d rs i _]; cbn; [|done].
  rewrite !Forall_app, Forall_cons. tauto.
Qed.

(** With every pending check coming back, a batch runs to its end in as
    many steps as its measure says. *)
Lemma CM_runs_to_end urls m : forall s,
  CM_inv urls s ->
  Forall (fun g => Get_returns (fst g) = true) (pending s) ->
  CM_measure s = m ->
  exists s', nsteps (step (length urls)) m s s' /\ CM_final (length urls) s'.
Proof.
  induction m as [|m IH]; intros s Hinv Hret Hm.
  - exists s. split; [constructor|]. by apply CM_final_measure.
  - destruct (CM_progress strconv_Quote envs timeout answered urls s Hinv)
      as [s1 Hstep].
    + rewrite (CM_final_measure urls s Hinv). lia.
    + intros Hd. unfold CM_measure in Hm. rewrite Hd in Hm.
      destruct (pending s) as [|g p] eqn:Hp; [cbn in Hm; lia|].
      exists g. split; [by left|]. by apply Forall_cons in Hret as [? _].
    + destruct (IH s1) as (s' & Hrun & Hfin).
      * by eapply CM_inv_step.
      * by eapply CM_step_pending.
      * apply CM_step_measure in Hstep. lia.
      * exists s'. split; [by eapply nsteps_l|done].
Qed.

Lemma returns_false urls :
  returns urls = false ->
  exists g, g ∈ spawn urls /\ Get_returns (fst g) = false.
Proof.
  unfold CheckMultiple_returns. intros Hf.
  assert (exists i, (i < length urls)%nat /\ Get_returns i = false) as (i & Hi & Hb).
  { destruct (decide (Forall (fun i => Get_returns i = true) (seq 0 (length urls))))
      as [Hok|Hno].
    - rewrite Forall_forall in Hok.
      assert (forallb (checker.Get_returns timeout answered) (seq 0 (length urls)) = true)
        as Ht by (apply forallb_forall; intros x Hx; apply Hok, list_elem_of_In, Hx).
      congruence.
    - apply not_Forall_Exists in Hno; [|intros x; apply _].
      apply Exists_exists in Hno as (i & Hi & Hb).
      exists i. apply elem_of_seq in Hi. split; [lia|].
      apply not_true_is_false, Hb. }
  destruct (lookup_lt_is_Some_2 urls i Hi) as [u Hu].
  exists (i, u). split; [|done].
  unfold spawn. apply list_elem_of_lookup. exists i.
  by rewrite list_lookup_imap, Hu.
Qed.

(** X1. A batch over n URLs cannot run for more than 2n steps (n sends,
    n receives), and a state reached after k steps is the one in which
    [CheckMultiple] returns exactly when k = 2n. Whether the call ends
    is a matter of the checks alone: when each of them comes back, the
    2n - k steps that are left can always be taken and end the call;
    when one of them never does, no run reaches the end and the call
    blocks for ever. With a positive client timeout every check comes
    back. *)
Theorem CheckMultiple_ends_after_2n (urls : list string) (k : nat) (s : CMState) :
  nsteps (step (length urls)) k (CM_init urls) s ->
  (k <= 2 * length urls)%nat /\
  (CM_final (length urls) s <-> k = (2 * length urls)%nat) /\
  (returns urls = true ->
   exists s', nsteps (step (length urls)) (2 * length urls - k) s s' /\
              CM_final (length urls) s') /\
  (returns urls = false -> ~ CM_final (length urls) s) /\
  (0 < timeout -> returns urls = true).
Proof.
  intros Hrun.
  pose proof (CM_nsteps_measure _ _ _ _ Hrun) as Hm.
  pose proof (rtc_nsteps_2 _ _ _ Hrun) as Hrtc.
  pose proof (CM_inv_rtc strconv_Quote envs timeout answered urls s Hrtc) as Hinv.
  pose proof (CM_final_measure urls s Hinv) as Hfin.
  assert (CM_measure (CM_init urls) = (2 * length urls)%nat) as Hinit
    by (unfold CM_measure; cbn; rewrite length_spawn; lia).
  repeat split_and.
  - lia.
  - rewrite Hfin. lia.
  - intros Hret. apply (CM_runs_to_end urls); [done| |lia].
    eapply Forall_forall. intros g Hg.
    pose proof (returns_spawn timeout answered urls Hret) as Hall.
    rewrite Forall_forall in Hall. apply Hall.
    by apply (CM_pending_spawn strconv_Quote envs timeout answered urls s Hrtc).
  - intros (g & Hg & Hb)%returns_false Hend.
    pose proof (CM_blocked_stays strconv_Quote envs timeout answered
                  urls s g Hg Hb Hrtc) as Hin.
    apply Hfin in Hend. unfold CM_measure in Hend.
    destruct (pending s); [by apply not_elem_of_nil in Hin|cbn in Hend; lia].
  - intros Ht. unfold CheckMultiple_returns. apply forallb_forall.
    intros i _. unfold checker.Get_returns.
    by rewrite (proj2 (Z.ltb_lt 0 timeout) Ht).
Qed.

End CheckMultipleEnds.

Lemma CheckMultiple_ends_after_2n_witness :
  (2 <= 2 * length ["a"])%nat /\
  (checker.CM_final (length ["a"])
     (checker.mkCM [] []
        [checker.Check id scenario.env_ok "a"] 1)
   <-> 2%nat = (2 * length ["a"])%nat).
Proof.
  destruct (CheckMultiple_ends_after_2n id (fun _ => scenario.env_ok)
              (5 * Second) (fun _ => false) ["a"] 2
              (checker.mkCM [] [] [checker.Check id scenario.env_ok "a"] 1))
    as (H1 & H2 & _); [|split; [exact H1 | exact H2]].
  eapply nsteps_l;
    [apply (checker.CM_send _ _ _ _ _ [] (0%nat, "a") [] []);
       [reflexivity|cbn; lia]|].
  eapply nsteps_l; [apply checker.CM_recv; cbn; lia|].
  apply nsteps_O.
Defined.

(** ** Go strings: first and last occurrence *)

Section StringFacts.

Import ai.

Lemma substring_nil n m : String.substring n m "" = "".
Proof. by destruct n, m. Qed.

Lemma substring_beyond s : forall n m,
  (String.length s <= n)%nat -> String.substring n m s = "".
Proof.
  induction s as [|a s IH]; intros n m Hn; [apply substring_nil|].
  destruct n as [|n]; cbn in *; [lia|]. apply IH. lia.
Qed.

Lemma length_substring s : forall n m,
  (n + m <= String.length s)%nat -> String.length (String.substring n m s) = m.
Proof.
  induction s as [|a s IH]; intros n m Hn; cbn in Hn.
  - assert (m = 0%nat) as -> by lia. by rewrite substring_nil.
  - destruct n as [|n]; cbn.
    + destruct m as [|m]; [done|]. cbn. f_equal. apply IH. lia.
    + apply IH. lia.
Qed.

Lemma substring_substring s : forall n m p q,
  (p + q <= m)%nat ->
  String.substring p q (String.substring n m s) = String.substring (n + p) q s.
Proof.
  induction s as [|a s IH]; intros n m p q Hle.
  - by rewrite !substring_nil.
  - destruct n as [|n]; cbn [String.substring Nat.add].
    + destruct m as [|m].
      * assert (p = 0%nat) as -> by lia. assert (q = 0%nat) as -> by lia. done.
      * destruct p as [|p]; cbn [String.substring].
        -- destruct q as [|q]; [done|]. f_equal.
           rewrite (IH 0%nat m 0%nat q) by lia. done.
        -- rewrite (IH 0%nat m p q) by lia. done.
    + apply IH. lia.
Qed.

(** [strings.Index]: the first place where [substr] occurs. *)
Lemma strings_Index_spec substr s :
  let i := strings_Index s substr in
  (i = -1 /\ forall n, String.substring n (String.length substr) s <> substr) \/
  (0 <= i /\
   String.substring (Z.to_nat i) (String.length substr) s = substr /\
   forall n, (n < Z.to_nat i)%nat ->
     String.substring n (String.length substr) s <> substr).
Proof.
  induction s as [|a s IH]; cbn [strings_Index]; cbv zeta.
  - destruct (String.prefix substr "") eqn:Hp.
    + right. apply String.prefix_correct in Hp. repeat split; [lia|done|lia].
    + left. split; [done|]. intros n Heq. rewrite substring_nil in Heq. subst.
      discriminate Hp.
  - destruct (String.prefix substr (String a s)) eqn:Hp.
    + right. apply String.prefix_correct in Hp. repeat split; [lia|done|lia].
    + assert (String.substring 0 (String.length substr) (String a s) <> substr)
        as H0 by (intros Heq%String.prefix_correct; congruence).
      destruct IH as [[Hi Hnone]|(Hi & Hat & Hbefore)].
      * left. rewrite Hi. split; [done|].
        intros [|n]; [done|]. apply Hnone.
      * right. destruct (Z.ltb_spec (strings_Index s substr) 0); [lia|].
        replace (Z.to_nat (strings_Index s substr + 1))
          with (S (Z.to_nat (strings_Index s substr))) by lia.
        repeat split; [lia|done|].
        intros [|n] Hn; [done|]. apply Hbefore. lia.
Qed.

(** [strings.LastIndex]: the last place where a non-empty [substr]
    occurs. *)
Lemma strings_LastIndex_spec substr s :
  substr <> "" ->
  let i := strings_LastIndex s substr in
  (i = -1 /\ forall n, String.substring n (String.length substr) s <> substr) \/
  (0 <= i /\
   String.substring (Z.to_nat i) (String.length substr) s = substr /\
   forall n, (Z.to_nat i < n)%nat ->
     String.substring n (String.length substr) s <> substr).
Proof.
  intros Hne. induction s as [|a s IH]; cbn [strings_LastIndex]; cbv zeta.
  - left. destruct (String.prefix substr "") eqn:Hp.
    + apply String.prefix_correct in Hp. rewrite substring_nil in Hp. congruence.
    + split; [done|]. intros n. rewrite substring_nil. congruence.
  - destruct IH as [[Hi Hnone]|(Hi & Hat & Hafter)].
    + rewrite Hi. cbn [Z.leb Z.compare].
      destruct (String.prefix substr (String a s)) eqn:Hp.
      * right. apply String.prefix_correct in Hp. repeat split; [lia|done|].
        intros [|n] Hn; [lia|]. apply Hnone.
      * left. split; [done|]. intros [|n]; [|apply Hnone].
        intros Heq%String.prefix_correct. congruence.
    + right. destruct (Z.leb_spec 0 (strings_LastIndex s substr)); [|lia].
      replace (Z.to_nat (strings_LastIndex s substr + 1))
        with (S (Z.to_nat (strings_LastIndex s substr))) by lia.
      repeat split; [lia|done|].
      intros [|n] Hn; [lia|]. apply Hafter. lia.
Qed.

End StringFacts.

(** ** Package ai: types, parsing and the completion call *)

Section InsightFacts.

Import checker ai.

Variable Duration_String : Duration -> string.
Variable time_Now : nat -> Time.
Variable json_Unmarshal : string -> option (list RawInsight).
Variable http_NewRequest : string -> option error.
Variable client_Do : string -> ChatCompletionRequest -> DoResult.
Variable json_Decode : string -> error + ChatCompletionResponse.

Local Abbreviation fallbackInsights := (ai.fallbackInsights Duration_String time_Now).
Local Abbreviation parseInsights := (ai.parseInsights time_Now json_Unmarshal).
Local Abbreviation complete := (ai.complete http_NewRequest client_Do json_Decode).
Local Abbreviation buildAnalysisPrompt := (ai.buildAnalysisPrompt Duration_String).
Local Abbreviation AnalyzeEndpoints :=
  (ai.AnalyzeEndpoints Duration_String time_Now json_Unmarshal
     http_NewRequest client_Do json_Decode).
Local Abbreviation valid := ["alert"; "warning"; "info"; "success"].

Lemma validTypes_lookup t :
  default false (validTypes !! t) = bool_decide (t ∈ valid).
Proof.
  unfold validTypes.
  destruct (bool_decide_reflect (t ∈ valid)) as [Hin|Hout].
  - repeat (apply elem_of_cons in Hin as [->|Hin]; [reflexivity|]).
    by apply elem_of_nil in Hin.
  - rewrite !lookup_insert_ne, lookup_empty; [done|..];
      intros <-; apply Hout; repeat first [apply list_elem_of_here | apply list_elem_of_further].
Qed.

Lemma validateType_eq t :
  validateType t = if bool_decide (t ∈ valid) then t else "info".
Proof. unfold validateType. by rewrite validTypes_lookup. Qed.

Lemma validateType_elem t : validateType t ∈ valid.
Proof.
  rewrite validateType_eq. case_bool_decide; [done|].
  apply list_elem_of_further, list_elem_of_further, list_elem_of_here.
Qed.

(** X2. [validateType] always answers one of the four insight types: it
    leaves a valid type as it is and turns anything else into [info]; so
    validating twice changes nothing. *)
Theorem validateType_normalizes (t : string) :
  validateType t ∈ valid /\
  (t ∈ valid -> validateType t = t) /\
  (t ∉ valid -> validateType t = "info") /\
  validateType (validateType t) = validateType t.
Proof.
  pose proof (validateType_eq t) as Heq.
  pose proof (validateType_elem t) as Hin.
  repeat split_and; [done|..].
  - intros Ht. rewrite Heq. by rewrite bool_decide_eq_true_2.
  - intros Ht. rewrite Heq. by rewrite bool_decide_eq_false_2.
  - unfold validateType at 1. rewrite validTypes_lookup.
    by rewrite bool_decide_eq_true_2.
Qed.

Lemma parseInsights_cases response :
  parseInsights response = [] \/
  exists raws,
    0 <= strings_Index response "[" < strings_LastIndex response "]" /\
    json_Unmarshal (slice response (strings_Index response "[")
                      (strings_LastIndex response "]" + 1)) = Some raws /\
    parseInsights response =
      imap (fun i raw =>
              mkInsight (rawTitle raw) (rawContent raw)
                        (validateType (rawType raw)) (rawConfidence raw)
                        (time_Now i)) raws.
Proof.
  unfold ai.parseInsights.
  destruct (strings_Index_spec "[" response) as [[Hs _]|(Hs & _)];
    [rewrite Hs; by left|].
  destruct (strings_LastIndex_spec "]" response) as [[He _]|(He & _)]; [done|..].
  { rewrite He. rewrite orb_true_r. by left. }
  destruct (Z.eqb_spec (strings_Index response "[") (-1)); [lia|].
  destruct (Z.eqb_spec (strings_LastIndex response "]") (-1)); [lia|].
  cbn [orb]. rewrite Z.geb_leb.
  destruct (Z.leb_spec (strings_LastIndex response "]") (strings_Index response "["));
    [by left|].
  destruct (json_Unmarshal _) as [raws|] eqn:Hjson; [|by left].
  right. exists raws. repeat split; try done; lia.
Qed.

Lemma parseInsights_types response :
  Forall (fun i => Type_ i ∈ valid) (parseInsights response).
Proof.
  destruct (parseInsights_cases response) as [->|(raws & _ & _ & ->)]; [done|].
  apply Forall_forall. intros ins Hin.
  apply list_elem_of_lookup in Hin as [k Hk].
  rewrite list_lookup_imap in Hk.
  destruct (raws !! k) as [raw|]; [|done]. injection Hk as <-. cbn.
  apply validateType_elem.
Qed.

(** X3. [parseInsights] hands the JSON decoder the text from the first
    opening bracket of the response to its last closing bracket, both
    included; without an opening bracket, without a closing bracket, or
    when the last closing bracket is not after the first opening one, it
    returns no insight and decodes nothing. *)
Theorem parseInsights_bracketed (response : string) :
  let start := strings_Index response "[" in
  let end_ := strings_LastIndex response "]" in
  let jsonStr := slice response start (end_ + 1) in
  ((start = -1 \/ end_ = -1 \/ end_ <= start) /\ parseInsights response = []) \/
  (0 <= start < end_ /\
   String.length jsonStr = Z.to_nat (end_ - start + 1) /\
   String.substring 0 1 jsonStr = "[" /\
   String.substring (Z.to_nat (end_ - start)) 1 jsonStr = "]" /\
   (forall n, (n < Z.to_nat start)%nat -> String.substring n 1 response <> "[") /\
   (forall n, (Z.to_nat end_ < n)%nat -> String.substring n 1 response <> "]") /\
   length (parseInsights response) = length (default [] (json_Unmarshal jsonStr))).
Proof.
  cbv zeta.
  destruct (strings_Index_spec "[" response) as [[Hs _]|(Hs & Hsat & Hsbefore)].
  { left. split; [by left|]. unfold ai.parseInsights. by rewrite Hs. }
  destruct (strings_LastIndex_spec "]" response) as [[He _]|(He & Heat & Heafter)];
    [done|..].
  { left. split; [right; by left|]. unfold ai.parseInsights.
    rewrite He. by rewrite orb_true_r. }
  cbn [String.length] in *.
  destruct (Z.le_gt_cases (strings_LastIndex response "]") (strings_Index response "["))
    as [Hle|Hlt].
  { left. split; [right; by right|]. unfold ai.parseInsights.
    replace (strings_Index response "[" >=? strings_LastIndex response "]")
      with true by (symmetry; rewrite Z.geb_leb; by apply Z.leb_le).
    by rewrite !orb_true_r. }
  right.
  assert (Z.to_nat (strings_LastIndex response "]") < String.length response)%nat
    as Hin.
  { destruct (Nat.lt_ge_cases (Z.to_nat (strings_LastIndex response "]"))
                (String.length response)) as [|Hge]; [done|].
    by rewrite (substring_beyond _ _ _ Hge) in Heat. }
  unfold slice. repeat split_and; try done; try lia.
  - rewrite length_substring by lia. f_equal. lia.
  - rewrite substring_substring by lia. by rewrite Nat.add_0_r.
  - rewrite substring_substring by lia.
    replace (Z.to_nat (strings_Index response "[") +
             Z.to_nat (strings_LastIndex response "]" - strings_Index response "["))%nat
      with (Z.to_nat (strings_LastIndex response "]")) by lia.
    done.
  - unfold ai.parseInsights.
    destruct (Z.eqb_spec (strings_Index response "[") (-1)); [lia|].
    destruct (Z.eqb_spec (strings_LastIndex response "]") (-1)); [lia|].
    replace (strings_Index response "[" >=? strings_LastIndex response "]")
      with false by (symmetry; rewrite Z.geb_leb; apply Z.leb_gt; lia).
    cbn [orb]. unfold slice.
    destruct (json_Unmarshal _) as [raws|]; cbn; [apply length_imap|done].
Qed.

(** X4. Each insight [parseInsights] returns comes from the decoded
    entry at the same position: same title, content and confidence, the
    type passed through [validateType], and the reading of the clock
    taken for it. So every insight returned has one of the four types. *)
Theorem parseInsights_validated (response : string) :
  Forall (fun i => Type_ i ∈ valid) (parseInsights response) /\
  (forall k ins, parseInsights response !! k = Some ins ->
     GeneratedAt ins = time_Now k /\
     exists raws raw,
       json_Unmarshal (slice response (strings_Index response "[")
                         (strings_LastIndex response "]" + 1)) = Some raws /\
       raws !! k = Some raw /\
       Title ins = rawTitle raw /\ Content ins = rawContent raw /\
       Confidence ins = rawConfidence raw /\
       Type_ ins = validateType (rawType raw)).
Proof.
  split; [apply parseInsights_types|].
  intros k ins Hk.
  destruct (parseInsights_cases response) as [Hnil|(raws & _ & Hjson & Hparse)].
  { by rewrite Hnil in Hk. }
  rewrite Hparse, list_lookup_imap in Hk.
  destruct (raws !! k) as [raw|] eqn:Hraw; [|done]. injection Hk as <-.
  split; [done|]. by exists raws, raw.
Qed.

(** X5. [complete] returns a text with no error only when the request
    could be built, the service answered 200, the body decoded and it
    held at least one choice; the text is then the content of the first
    choice. Whenever it returns an error the text is empty, and an
    answer with another status is such an error. *)
Theorem complete_text_or_error (c : GPTOSSClient) (prompt : string) :
  let target := baseURL c +:+ "/v1/chat/completions" in
  let request :=
    mkRequest (model c)
      [ mkMessage "system"
          "You are a monitoring system AI assistant. Respond only with valid JSON.";
        mkMessage "user" prompt ]
      (maxTokens c) (temperature c) in
  match complete c prompt with
  | (text, None) =>
      http_NewRequest target = None /\
      exists body response first rest,
        client_Do target request = DoResp 200 body /\
        json_Decode body = inr response /\
        Choices response = first :: rest /\
        text = MsgContent (ChoiceMessage first)
  | (text, Some err) =>
      text = "" /\
      (forall code body,
         http_NewRequest target = None ->
         client_Do target request = DoResp code body -> code <> 200 ->
         err = errorString ("API error " +:+ fmt_d code +:+ ": " +:+ body))
  end.
Proof.
  cbv zeta. unfold ai.complete.
  destruct (http_NewRequest _) as [e|] eqn:Hreq; [by split|].
  destruct (client_Do _ _) as [e|code body] eqn:Hdo; [by split|].
  destruct (Z.eqb_spec code 200) as [->|Hcode]; cbn [negb].
  - destruct (json_Decode body) as [e|response] eqn:Hdec;
      [split; [done|]; intros ?? _ [= <- <-]; done|].
    destruct (Choices response) as [|first rest] eqn:Hch;
      [split; [done|]; intros ?? _ [= <- <-]; done|].
    split; [done|]. by exists body, response, first, rest.
  - split; [done|]. by intros ?? _ [= <- <-] _.
Qed.

Lemma fallbackInsights_shape results insights :
  fallbackInsights results = Returns insights ->
  results <> [] /\
  exists (a w s : bool) ia iw is_ ii,
    a && s = false /\
    Type_ ia = "alert" /\ Confidence ia = 1%Q /\
    Type_ iw = "warning" /\ Confidence iw = (9 # 10)%Q /\
    Type_ is_ = "success" /\ Confidence is_ = (95 # 100)%Q /\
    Type_ ii = "info" /\ Confidence ii = (8 # 10)%Q /\
    insights =
      (if a then [ia] else []) ++ (if w then [iw] else []) ++
      (if s then [is_] else []) ++ [ii].
Proof.
  unfold ai.fallbackInsights, div64.
  destruct results as [|r rs]; [done|]. split; [done|].
  destruct (Z.eqb_spec (Z.of_nat (length (r :: rs))) 0) as [Hz|_];
    [cbn in Hz; lia|].
  set (t := tally_of (r :: rs)) in *. set (avg := wrap64 _) in *.
  exists (unhealthy t >? 0), (slowEndpoints t >? 0),
    ((avg <? 500 * Millisecond) && (unhealthy t =? 0)).
  exists (alertInsight t (time_Now 0)),
    (warningInsight t (time_Now (if unhealthy t >? 0 then 1 else 0))),
    (successInsight Duration_String avg
       (time_Now ((if unhealthy t >? 0 then 1 else 0) +
                  (if slowEndpoints t >? 0 then 1 else 0)))),
    (infoInsight (time_Now (length insights - 1))).
  repeat split_and; try done.
  - destruct (Z.gtb_spec (unhealthy t) 0), (Z.eqb_spec (unhealthy t) 0);
      rewrite ?andb_false_r; try done; lia.
  - injection H as <-. unfold append_now.
    destruct (unhealthy t >? 0), (slowEndpoints t >? 0),
      ((avg <? 500 * Millisecond) && (unhealthy t =? 0)); reflexivity.
Qed.

Lemma fallbackInsights_bounded_aux results insights :
  fallbackInsights results = Returns insights ->
  insights <> [] /\ Forall (fun i => Type_ i ∈ valid) insights.
Proof.
  intros Hfb.
  destruct (fallbackInsights_shape results insights Hfb)
    as (_ & a & w & s & ia & iw & is_ & ii & _ & Hta & _ & Htw & _
        & Hts & _ & Hti & _ & ->).
  split; [by destruct a, w, s|].
  rewrite !Forall_app. repeat split_and.
  - destruct a; [|done]. apply Forall_singleton. rewrite Hta.
    apply list_elem_of_here.
  - destruct w; [|done]. apply Forall_singleton. rewrite Htw.
    apply list_elem_of_further, list_elem_of_here.
  - destruct s; [|done]. apply Forall_singleton. rewrite Hts.
    do 3 apply list_elem_of_further. apply list_elem_of_here.
  - apply Forall_singleton. rewrite Hti.
    do 2 apply list_elem_of_further. apply list_elem_of_here.
Qed.

Ltac by_decision :=
  match goal with
  | |- ?P => refine (@bool_decide_unpack P _ _); vm_compute; exact I
  end.

(** X6. [fallbackInsights] panics on the empty slice only. What it
    returns otherwise is one to three insights, no two of the same type,
    never an [alert] together with a [success], each of one of the four
    types and with a confidence between 0 and 1. *)
Theorem fallbackInsights_bounded (results : list CheckResult) :
  match fallbackInsights results with
  | Panics _ => results = []
  | Returns insights =>
      results <> [] /\
      (1 <= length insights <= 3)%nat /\
      NoDup (Type_ <$> insights) /\
      ~ ("alert" ∈ Type_ <$> insights /\ "success" ∈ Type_ <$> insights) /\
      Forall (fun i => Type_ i ∈ valid) insights /\
      Forall (fun i => (0 <= Confidence i <= 1)%Q) insights
  end.
Proof.
  destruct (fallbackInsights results) as [insights|msg] eqn:Hfb.
  - destruct (fallbackInsights_shape results insights Hfb)
      as (Hne & a & w & s & ia & iw & is_ & ii & Has & Hta & Hca & Htw & Hcw
          & Hts & Hcs & Hti & Hci & ->).
    split; [done|].
    destruct a, w, s; try discriminate Has; cbn [app fmap list_fmap length];
      rewrite ?Hta, ?Htw, ?Hts, ?Hti;
      (repeat split_and;
       [ lia | lia
       | by_decision
       | by_decision
       | repeat (apply Forall_cons; split);
           rewrite ?Hta, ?Htw, ?Hts, ?Hti; try apply Forall_nil;
           by_decision
       | repeat (apply Forall_cons; split);
           rewrite ?Hca, ?Hcw, ?Hcs, ?Hci; try apply Forall_nil;
           by (split; unfold Qle; cbn) ]).
  - destruct results as [|r rs]; [done|].
    destruct (fallbackInsights_returns Duration_String time_Now (r :: rs))
      as [insights Hret]; [done|]. congruence.
Qed.

(** X7. On a non-empty slice of results [AnalyzeEndpoints] always
    returns, with at least one insight, each of one of the four types;
    the error it returns is [nil] exactly when the completion call
    succeeded. *)
Theorem AnalyzeEndpoints_always_insights (c : GPTOSSClient)
    (results : list CheckResult) :
  results <> [] ->
  exists insights err,
    AnalyzeEndpoints c results = Returns (insights, err) /\
    insights <> [] /\
    Forall (fun i => Type_ i ∈ valid) insights /\
    (err = None <-> (complete c (buildAnalysisPrompt results)).2 = None).
Proof.
  intros Hne.
  rewrite (AnalyzeEndpoints_cases Duration_String time_Now json_Unmarshal
             http_NewRequest client_Do json_Decode).
  destruct (fallbackInsights_returns Duration_String time_Now results Hne)
    as [fallback Hfb].
  pose proof (fallbackInsights_bounded_aux results fallback Hfb) as [Hfne Hfty].
  destruct (complete c (buildAnalysisPrompt results)) as [response [err|]].
  - rewrite Hfb. eexists _, _. split; [done|]. by repeat split_and.
  - pose proof (parseInsights_types response) as Hty.
    destruct (parseInsights response) as [|i insights].
    + rewrite Hfb. eexists _, _. split; [done|]. by repeat split_and.
    + eexists _, _. split; [done|]. by repeat split_and.
Qed.

Lemma NewGPTOSSClient_model trim url key name :
  model (NewGPTOSSClient trim url key name) <> "".
Proof.
  unfold NewGPTOSSClient. cbn.
  by destruct (String.eqb_spec (trim name) "").
Qed.

End InsightFacts.

Lemma AnalyzeEndpoints_always_insights_witness :
  exists insights err,
    ai.AnalyzeEndpoints scenario.print_ns scenario.clock (fun _ => None)
      (fun _ => None) (fun _ _ => scenario.unreachable)
      (fun _ => inl (ai.errorString "unexpected end of JSON input"))
      scenario.client [scenario.A; scenario.B]
    = Returns (insights, err) /\ insights <> [].
Proof.
  destruct (AnalyzeEndpoints_always_insights scenario.print_ns scenario.clock
              (fun _ => None) (fun _ => None) (fun _ _ => scenario.unreachable)
              (fun _ => inl (ai.errorString "unexpected end of JSON input"))
              scenario.client [scenario.A; scenario.B])
    as (insights & err & Hret & Hne & _); [discriminate|].
  exists insights, err. split; [exact Hret | exact Hne].
Defined.

(** ** Command web: the monitored URLs *)

Section EndpointFacts.

Import web.

Variable strings_TrimSpace : string -> string.

Local Abbreviation handleEndpoints := (web.handleEndpoints strings_TrimSpace).

Lemma already_monitored_spec urls url :
  already_monitored urls url = true <-> url ∈ urls.
Proof.
  induction urls as [|u urls IH]; cbn.
  - split; [done|]. by intros ?%elem_of_nil.
  - rewrite elem_of_cons. destruct (String.eqb_spec u url) as [->|Hne].
    + split; [by left|done].
    + rewrite IH. split; [by right|]. intros [->|?]; done.
Qed.

Lemma removeURL_app l1 url l2 :
  url ∉ l1 -> removeURL (l1 ++ url :: l2) url = Some (l1 ++ l2).
Proof.
  induction l1 as [|x l1 IH]; intros Hout; cbn.
  - by rewrite String.eqb_refl.
  - apply not_elem_of_cons in Hout as [Hne Hout].
    destruct (String.eqb_spec x url) as [->|_]; [done|].
    by rewrite IH.
Qed.

Lemma removeURL_split urls url : forall urls',
  removeURL urls url = Some urls' ->
  exists l1 l2, urls = l1 ++ url :: l2 /\ (url ∉ l1) /\ urls' = l1 ++ l2.
Proof.
  induction urls as [|u urls IH]; intros urls'; cbn; [done|].
  destruct (String.eqb_spec u url) as [->|Hne].
  - intros [= <-]. exists [], urls. split; [done|]. split; [|done].
    apply not_elem_of_nil.
  - destruct (removeURL urls url) as [rest|]; cbn; [|done].
    intros [= <-]. destruct (IH rest eq_refl) as (l1 & l2 & -> & Hout & ->).
    exists (u :: l1), l2. split; [done|]. split; [|done].
    apply not_elem_of_cons. by split.
Qed.

Lemma removeURL_None urls url : removeURL urls url = None <-> url ∉ urls.
Proof.
  induction urls as [|u urls IH]; cbn.
  - split; [intros _; apply not_elem_of_nil|done].
  - rewrite not_elem_of_cons. destruct (String.eqb_spec u url) as [->|Hne].
    + split; [done|]. by intros [? _].
    + destruct (removeURL urls url); cbn.
      * split; [done|]. intros [_ Hout]. by apply IH in Hout.
      * split; [|done]. intros _. split; [done|]. by apply IH.
Qed.

Lemma urls_ok_default : urls_ok default_urls.
Proof.
  split; refine (@bool_decide_unpack _ _ _); vm_compute; exact I.
Qed.

(** X8. Whatever the request, [handleEndpoints] keeps the monitored list
    free of duplicates and made of URLs that start with http:// or
    https://; the list the server starts with is such a list. *)
Theorem handleEndpoints_keeps_urls_ok (method : string)
    (body : option EndpointRequest) (urls : list string) :
  urls_ok urls -> urls_ok (handleEndpoints method body urls).1.
Proof.
  intros [Hnd Hall]. unfold web.handleEndpoints.
  destruct (String.eqb method "OPTIONS"); [done|].
  destruct (String.eqb method "GET"); [done|].
  destruct (String.eqb method "POST").
  - destruct body as [req|]; [|done].
    destruct (String.eqb _ ""); [done|].
    destruct (String.prefix "http://" _) eqn:Hp1;
      destruct (String.prefix "https://" _) eqn:Hp2; cbn [negb andb]; try done;
      (destruct (already_monitored urls _) eqn:Ham; [done|]; cbn; split;
       [ apply NoDup_app; repeat split; [done| |apply NoDup_singleton];
         intros x Hx ->%list_elem_of_singleton;
         apply already_monitored_spec in Hx; congruence
       | apply Forall_app; split; [done|]; apply Forall_singleton;
         unfold has_scheme; by rewrite Hp1, Hp2 ]).
  - destruct (String.eqb method "DELETE"); [|done].
    destruct body as [req|]; [|done].
    destruct (String.eqb _ ""); [done|].
    destruct (removeURL urls _) as [urls'|] eqn:Hrem; [|done]. cbn.
    apply removeURL_split in Hrem as (l1 & l2 & -> & _ & ->).
    split.
    + apply NoDup_app in Hnd as (H1 & H2 & H3). apply NoDup_cons in H3 as [H3 H4].
      apply NoDup_app. repeat split; [done| |done].
      intros x Hx Hx2. apply (H2 x Hx). by apply list_elem_of_further.
    + apply Forall_app in Hall as [H1 H2]. apply Forall_cons in H2 as [_ H2].
      by apply Forall_app.
Qed.

Lemma POST_conflict req urls :
  strings_TrimSpace (ReqURL req) <> "" ->
  has_scheme (strings_TrimSpace (ReqURL req)) = true ->
  strings_TrimSpace (ReqURL req) ∈ urls ->
  handleEndpoints "POST" (Some req) urls =
    (urls, ReplyError "URL already being monitored" 409).
Proof.
  intros Hne Hs Hin. unfold web.handleEndpoints. cbn [String.eqb Ascii.eqb Bool.eqb].
  apply String.eqb_neq in Hne. rewrite Hne. unfold has_scheme in Hs.
  apply already_monitored_spec in Hin.
  destruct (String.prefix "http://" _), (String.prefix "https://" _);
    try discriminate Hs; cbn [negb andb]; by rewrite Hin.
Qed.

Lemma POST_accepted req urls :
  strings_TrimSpace (ReqURL req) <> "" ->
  has_scheme (strings_TrimSpace (ReqURL req)) = true ->
  strings_TrimSpace (ReqURL req) ∉ urls ->
  handleEndpoints "POST" (Some req) urls =
    (urls ++ [strings_TrimSpace (ReqURL req)],
     ReplyMessage 201 "Endpoint added successfully").
Proof.
  intros Hne Hs Hout. unfold web.handleEndpoints. cbn [String.eqb Ascii.eqb Bool.eqb].
  apply String.eqb_neq in Hne. rewrite Hne. unfold has_scheme in Hs.
  assert (already_monitored urls (strings_TrimSpace (ReqURL req)) = false) as Hno.
  { destruct (already_monitored urls _) eqn:Ham; [|done].
    by apply already_monitored_spec in Ham. }
  destruct (String.prefix "http://" _), (String.prefix "https://" _);
    try discriminate Hs; cbn [negb andb]; by rewrite Hno.
Qed.

Lemma POST_rejected req urls :
  strings_TrimSpace (ReqURL req) = "" \/
  has_scheme (strings_TrimSpace (ReqURL req)) = false ->
  exists text, handleEndpoints "POST" (Some req) urls = (urls, ReplyError text 400).
Proof.
  unfold web.handleEndpoints. cbn [String.eqb Ascii.eqb Bool.eqb].
  intros [Hempty|Hs].
  - rewrite Hempty. cbn. eauto.
  - destruct (String.eqb _ ""); [eauto|].
    unfold has_scheme in Hs. apply orb_false_elim in Hs as [-> ->]. cbn. eauto.
Qed.

(** X9. A [POST] changes the list only by appending the trimmed URL, and
    only when that URL is not empty, starts with http:// or https:// and
    is not yet in the list (answer 201); a URL already in the list is
    answered 409 and the list is left alone, so posting the same body
    again after a 201 is answered 409. An empty URL, one without the
    scheme, or a body that does not decode is answered 400. *)
Theorem POST_adds_once (req : EndpointRequest) (urls : list string) :
  let url := strings_TrimSpace (ReqURL req) in
  let after := handleEndpoints "POST" (Some req) urls in
  (url <> "" -> has_scheme url = true -> url ∈ urls ->
     after = (urls, ReplyError "URL already being monitored" 409)) /\
  (url <> "" -> has_scheme url = true -> url ∉ urls ->
     after = (urls ++ [url], ReplyMessage 201 "Endpoint added successfully") /\
     handleEndpoints "POST" (Some req) after.1 =
       (after.1, ReplyError "URL already being monitored" 409)) /\
  (url = "" \/ has_scheme url = false ->
     exists text, after = (urls, ReplyError text 400)) /\
  (handleEndpoints "POST" None urls = (urls, ReplyError "Invalid JSON" 400)).
Proof.
  cbv zeta. repeat split_and.
  - apply POST_conflict.
  - intros Hne Hs Hout. split; [by apply POST_accepted|].
    rewrite (POST_accepted req urls) by done. cbn [fst]. apply POST_conflict; try done.
    apply elem_of_app. right. by apply list_elem_of_singleton.
  - apply POST_rejected.
  - done.
Qed.

Lemma DELETE_found req urls l1 l2 :
  strings_TrimSpace (ReqURL req) <> "" ->
  urls = l1 ++ strings_TrimSpace (ReqURL req) :: l2 ->
  strings_TrimSpace (ReqURL req) ∉ l1 ->
  handleEndpoints "DELETE" (Some req) urls =
    (l1 ++ l2, ReplyMessage 200 "Endpoint removed successfully").
Proof.
  intros Hne -> Hout. unfold web.handleEndpoints. cbn [String.eqb Ascii.eqb Bool.eqb].
  apply String.eqb_neq in Hne. rewrite Hne. by rewrite removeURL_app.
Qed.

(** X10. A [DELETE] of a URL that is not in the list is answered 404 and
    changes nothing. A [DELETE] of a URL that is in the list is answered
    200 and takes out its first occurrence, keeping the others in their
    order; on a list without duplicates the URL is then gone. *)
Theorem DELETE_removes (req : EndpointRequest) (urls : list string) :
  let url := strings_TrimSpace (ReqURL req) in
  let after := handleEndpoints "DELETE" (Some req) urls in
  (url <> "" -> url ∉ urls -> after = (urls, ReplyError "URL not found" 404)) /\
  (url <> "" -> url ∈ urls ->
     exists l1 l2,
       urls = l1 ++ url :: l2 /\ (url ∉ l1) /\
       after = (l1 ++ l2, ReplyMessage 200 "Endpoint removed successfully") /\
       (NoDup urls -> url ∉ after.1)) /\
  (url = "" -> after = (urls, ReplyError "URL is required" 400)).
Proof.
  cbv zeta. split; [|split].
  - intros Hne Hout. unfold web.handleEndpoints. cbn [String.eqb Ascii.eqb Bool.eqb].
    apply String.eqb_neq in Hne. rewrite Hne.
    by rewrite (proj2 (removeURL_None urls _) Hout).
  - intros Hne Hin.
    destruct (removeURL urls (strings_TrimSpace (ReqURL req))) as [urls'|] eqn:Hrem.
    + apply removeURL_split in Hrem as (l1 & l2 & Hurls & Hout & ->).
      exists l1, l2. rewrite (DELETE_found req urls l1 l2) by done.
      repeat split_and; try done. cbn [fst]. subst urls.
      intros Hnd Hin2. apply NoDup_app in Hnd as (_ & H2 & H3).
      apply NoDup_cons in H3 as [H3 _].
      apply elem_of_app in Hin2 as [Hin2|Hin2]; [by apply Hout|by apply H3].
    + by apply removeURL_None in Hrem.
  - intros Hempty. unfold web.handleEndpoints. cbn [String.eqb Ascii.eqb Bool.eqb].
    by rewrite Hempty.
Qed.

(** X11. Adding a URL and then deleting it gives back the list as it
    was: an accepted [POST] followed by a [DELETE] with the same body
    restores the monitored list. *)
Theorem POST_then_DELETE_restores (req : EndpointRequest) (urls : list string) :
  (handleEndpoints "POST" (Some req) urls).2
    = ReplyMessage 201 "Endpoint added successfully" ->
  handleEndpoints "DELETE" (Some req) (handleEndpoints "POST" (Some req) urls).1
    = (urls, ReplyMessage 200 "Endpoint removed successfully").
Proof.
  intros Hpost.
  destruct (String.eqb_spec (strings_TrimSpace (ReqURL req)) "") as [Hempty|Hne].
  { destruct (POST_rejected req urls (or_introl Hempty)) as [text Heq].
    rewrite Heq in Hpost. discriminate Hpost. }
  destruct (has_scheme (strings_TrimSpace (ReqURL req))) eqn:Hs.
  2:{ destruct (POST_rejected req urls (or_intror Hs)) as [text Heq].
      rewrite Heq in Hpost. discriminate Hpost. }
  destruct (decide (strings_TrimSpace (ReqURL req) ∈ urls)) as [Hin|Hout].
  { rewrite (POST_conflict req urls) in Hpost by done. discriminate Hpost. }
  rewrite (POST_accepted req urls) by done. cbn [fst].
  rewrite (DELETE_found req _ urls []) by done. by rewrite app_nil_r.
Qed.

End EndpointFacts.

Lemma handleEndpoints_keeps_urls_ok_witness :
  web.urls_ok
    (web.handleEndpoints id "POST"
       (Some (web.mkEndpointRequest "https://example.org/health"))
       web.default_urls).1.
Proof.
  apply (handleEndpoints_keeps_urls_ok id "POST"
           (Some (web.mkEndpointRequest "https://example.org/health"))
           web.default_urls).
  apply urls_ok_default.
Defined.

Lemma POST_then_DELETE_restores_witness :
  web.handleEndpoints id "DELETE"
    (Some (web.mkEndpointRequest "https://example.org/health"))
    (web.handleEndpoints id "POST"
       (Some (web.mkEndpointRequest "https://example.org/health"))
       web.default_urls).1
  = (web.default_urls, web.ReplyMessage 200 "Endpoint removed successfully").
Proof.
  apply (POST_then_DELETE_restores id
           (web.mkEndpointRequest "https://example.org/health") web.default_urls).
  reflexivity.
Defined.

(** ** Command web: the insights served *)

Section WebInsightFacts.

Import checker.

Variable Duration_String : Duration -> string.
Variable time_Now : nat -> Time.
Variable clock_ai : nat -> Time.
Variable json_Unmarshal : string -> option (list ai.RawInsight).
Variable http_NewRequest : string -> option ai.error.
Variable client_Do : string -> ai.ChatCompletionRequest -> ai.DoResult.
Variable json_Decode : string -> ai.error + ai.ChatCompletionResponse.

Local Abbreviation generateInsights := (web.generateInsights Duration_String).
Local Abbreviation convertLegacyInsights := (web.convertLegacyInsights time_Now).
Local Abbreviation fallbackInsights := (ai.fallbackInsights Duration_String clock_ai).
Local Abbreviation parseInsights := (ai.parseInsights clock_ai json_Unmarshal).
Local Abbreviation complete := (ai.complete http_NewRequest client_Do json_Decode).
Local Abbreviation insights_for :=
  (web.insights_for Duration_String time_Now clock_ai json_Unmarshal
     http_NewRequest client_Do json_Decode).

(** The tests of the rules, read on the results themselves. *)
Lemma tally_tests results :
  is_slice results ->
  (ai.unhealthy (ai.tally_of results) >? 0)
    = bool_decide (Exists ai.is_unhealthy results) /\
  (ai.slowEndpoints (ai.tally_of results) >? 0)
    = bool_decide (Exists ai.is_slow results) /\
  (ai.unhealthy (ai.tally_of results) =? 0)
    = bool_decide (Forall (fun r => IsHealthy r = true) results).
Proof.
  intros Hsl. destruct (tally_of_spec results Hsl) as (Hu & _ & _ & Hslow).
  assert (forall (P : CheckResult -> Prop) `{!forall x, Decision (P x)},
            (Z.of_nat (length (filter P results)) >? 0) = bool_decide (Exists P results))
    as Hpos.
  { intros P HP. rewrite Z.gtb_ltb.
    destruct (bool_decide_reflect (Exists P results)) as [H|H].
    - by apply Z.ltb_lt, filter_length_pos.
    - apply Z.ltb_ge.
      destruct (Z.lt_ge_cases 0 (Z.of_nat (length (filter P results))))
        as [Hpos|Hle]; [|lia].
      by apply filter_length_pos in Hpos. }
  rewrite Hu, Hslow. repeat split_and; [apply Hpos|apply Hpos|].
  pose proof (Hpos ai.is_unhealthy _) as Hp. rewrite Z.gtb_ltb in Hp.
  assert (Forall (fun r => IsHealthy r = true) results <->
          ~ Exists ai.is_unhealthy results) as Hall.
  { rewrite <- Forall_Exists_neg. apply Forall_proper; [|done].
    intros r. unfold ai.is_unhealthy. by destruct (IsHealthy r). }
  destruct (bool_decide_reflect (Exists ai.is_unhealthy results)) as [HU|HU].
  - apply Z.ltb_lt in Hp. rewrite bool_decide_eq_false_2 by tauto.
    apply Z.eqb_neq. lia.
  - apply Z.ltb_ge in Hp. rewrite bool_decide_eq_true_2 by tauto.
    apply Z.eqb_eq. lia.
Qed.

Lemma generateInsights_returns results :
  results <> [] ->
  exists legacy, generateInsights results = Returns legacy /\ legacy <> [].
Proof.
  intros Hne. unfold web.generateInsights, div64.
  assert ((Z.of_nat (length results) =? 0) = false) as ->
    by (apply Z.eqb_neq; destruct results; cbn; [done|lia]).
  eexists. split; [reflexivity|].
  destruct (_ >? 1 * Second); intros Heq; apply (f_equal length) in Heq;
    rewrite !length_app in Heq; cbn in Heq; lia.
Qed.

(** The types as the code evaluates them: the average compared with
    500ms and with one second is the one computed in 64 bits. *)
Lemma generateInsights_types_wrapped (results : list CheckResult) :
  results <> [] -> is_slice results ->
  exists insights,
    generateInsights results = Returns insights /\
    web.Type_ <$> insights =
      (if decide (Exists ai.is_unhealthy results) then ["alert"] else []) ++
      (if decide (Exists ai.is_slow results) then ["warning"] else []) ++
      (if decide (Forall (fun r => IsHealthy r = true) results /\
                  ai.avgResponseTime results < 500 * Millisecond)
       then ["success"] else []) ++
      ["info"] ++
      (if decide (1 * Second < ai.avgResponseTime results) then ["info"] else []).
Proof.
  intros Hne Hsl.
  destruct (tally_tests results Hsl) as (HbU & HbS & HbZ).
  destruct (tally_of_spec results Hsl) as (_ & _ & Htot & _).
  unfold web.generateInsights, div64.
  assert ((Z.of_nat (length results) =? 0) = false) as ->
    by (apply Z.eqb_neq; destruct results; cbn; [done|lia]).
  rewrite Htot. fold (ai.avgResponseTime results). rewrite HbU, HbS, HbZ, Z.gtb_ltb.
  eexists. split; [reflexivity|].
  destruct (decide (Exists ai.is_unhealthy results)) as [HU|HU];
    [rewrite (bool_decide_eq_true_2 _ HU)|rewrite (bool_decide_eq_false_2 _ HU)];
  (destruct (decide (Exists ai.is_slow results)) as [HS|HS];
    [rewrite (bool_decide_eq_true_2 _ HS)|rewrite (bool_decide_eq_false_2 _ HS)]);
  (destruct (Z.ltb_spec (ai.avgResponseTime results) (500 * Millisecond)) as [HA|HA]);
  (destruct (bool_decide_reflect (Forall (fun r => IsHealthy r = true) results))
     as [HF|HF]);
  (destruct (Z.ltb_spec (1 * Second) (ai.avgResponseTime results)) as [HP|HP]);
  cbn [andb];
  (destruct (decide (Forall (fun r => IsHealthy r = true) results /\
                     ai.avgResponseTime results < 500 * Millisecond)) as [HC|HC];
     [|try (exfalso; apply HC; split; [done|lia])]);
  try (destruct HC as [HC1 HC2]; first [done | lia]);
  (destruct (decide (1 * Second < ai.avgResponseTime results)); try lia);
  reflexivity.
Qed.

(** X12. On a non-empty slice of results whose response times add up to
    a number of nanoseconds that fits in 64 bits, the web server's
    rule-based generator returns these insights, in this order: an
    [alert] if and only if some result is unhealthy, a [warning] if and
    only if some response time exceeds two seconds, a [success] if and
    only if all results are healthy and the average (the sum of the
    response times divided by their number) is below 500ms, an [info]
    recommendation always, and a second [info] (the pattern analysis) if
    and only if the average, rounded down to a whole nanosecond, exceeds
    one second. *)
Theorem generateInsights_types (results : list CheckResult) :
  results <> [] -> is_slice results ->
  in_int64 (ai.sum_ResponseTime results) ->
  exists insights,
    generateInsights results = Returns insights /\
    web.Type_ <$> insights =
      (if decide (Exists ai.is_unhealthy results) then ["alert"] else []) ++
      (if decide (Exists ai.is_slow results) then ["warning"] else []) ++
      (if decide (Forall (fun r => IsHealthy r = true) results /\
                  (ai.average results < inject_Z (500 * Millisecond))%Q)
       then ["success"] else []) ++
      ["info"] ++
      (if decide (1 * Second < Qfloor (ai.average results)) then ["info"] else []).
Proof.
  intros Hne Hsl Hsum.
  destruct (generateInsights_types_wrapped results Hne Hsl) as (insights & Hret & Hty).
  destruct (average_exact results Hne Hsum) as [Hlt Hgt].
  specialize (Hlt (500 * Millisecond) eq_refl).
  specialize (Hgt (1 * Second) ltac:(done)).
  exists insights. split; [done|]. rewrite Hty.
  do 2 f_equal. f_equal; [|f_equal]; apply decide_ext; [by rewrite Hlt|done].
Qed.

Lemma convertLegacyInsights_confidence legacy :
  Forall (fun i => ai.Confidence i = (8 # 10)%Q) (convertLegacyInsights legacy) /\
  length (convertLegacyInsights legacy) = length legacy.
Proof.
  unfold web.convertLegacyInsights. split; [|apply length_imap].
  apply Forall_forall. intros i [k Hk]%list_elem_of_lookup.
  rewrite list_lookup_imap in Hk.
  destruct (legacy !! k); [|done]. by injection Hk as <-.
Qed.

(** X13. For a non-empty slice of results the insights handler always
    has at least one insight to write. With AI disabled, or when the
    completion call fails, they are the web server's own rule-based
    insights, each with confidence 0.8 (the fallback insights that
    [AnalyzeEndpoints] returned with the error are dropped). When the
    call succeeds they are the parsed insights, or the ai package's
    fallback insights if none could be parsed. *)
Theorem insights_for_always (aiClient : option ai.GPTOSSClient)
    (results : list CheckResult) :
  results <> [] ->
  exists legacy fallback insights,
    generateInsights results = Returns legacy /\
    fallbackInsights results = Returns fallback /\
    insights_for aiClient results = Returns insights /\
    insights <> [] /\
    match aiClient with
    | None => insights = convertLegacyInsights legacy
    | Some c =>
        match complete c (ai.buildAnalysisPrompt Duration_String results) with
        | (_, Some _) => insights = convertLegacyInsights legacy
        | (response, None) =>
            insights = match parseInsights response with
                       | [] => fallback
                       | parsed => parsed
                       end
        end
    end /\
    Forall (fun i => ai.Confidence i = (8 # 10)%Q) (convertLegacyInsights legacy).
Proof.
  intros Hne.
  destruct (generateInsights_returns results Hne) as (legacy & Hlegacy & Hlne).
  destruct (fallbackInsights_returns Duration_String clock_ai results Hne)
    as [fallback Hfb].
  pose proof (fallbackInsights_bounded_aux Duration_String clock_ai results
                fallback Hfb) as [Hfne _].
  pose proof (convertLegacyInsights_confidence legacy) as [Hconf Hlen].
  assert (convertLegacyInsights legacy <> []) as Hcne.
  { intros Heq. rewrite Heq in Hlen. by destruct legacy. }
  exists legacy, fallback. unfold web.insights_for.
  destruct aiClient as [c|].
  - rewrite (AnalyzeEndpoints_cases Duration_String clock_ai json_Unmarshal
               http_NewRequest client_Do json_Decode).
    destruct (complete c _) as [response [err|]].
    + rewrite Hfb, Hlegacy. eexists. by repeat split_and.
    + destruct (parseInsights response) as [|i parsed].
      * rewrite Hfb. eexists. by repeat split_and.
      * eexists. by repeat split_and.
  - rewrite Hlegacy. eexists. by repeat split_and.
Qed.

End WebInsightFacts.

Lemma generateInsights_types_witness :
  exists insights,
    web.generateInsights scenario.print_ns [scenario.A; scenario.B]
      = Returns insights /\
    web.Type_ <$> insights = ["alert"; "warning"; "info"; "info"].
Proof.
  destruct (generateInsights_types scenario.print_ns [scenario.A; scenario.B])
    as (insights & Hret & Hty);
    [discriminate|reflexivity|vm_compute; split; [discriminate|reflexivity]|].
  exists insights. split; [exact Hret|]. rewrite Hty. reflexivity.
Defined.

Lemma insights_for_always_witness :
  exists insights,
    web.insights_for scenario.print_ns scenario.clock scenario.clock
      (fun _ => None) (fun _ => None) (fun _ _ => scenario.unreachable)
      (fun _ => inl (ai.errorString "unexpected end of JSON input"))
      (Some scenario.client) [scenario.A; scenario.B]
    = Returns insights /\ insights <> [].
Proof.
  destruct (insights_for_always scenario.print_ns scenario.clock scenario.clock
              (fun _ => None) (fun _ => None) (fun _ _ => scenario.unreachable)
              (fun _ => inl (ai.errorString "unexpected end of JSON input"))
              (Some scenario.client) [scenario.A; scenario.B])
    as (legacy & fallback & insights & _ & _ & Hret & Hne & _); [discriminate|].
  exists insights. split; [exact Hret | exact Hne].
Defined.

(** ** Package storage: saving and reading back *)

Section StoreMoreFacts.

Import checker storage.

Variable up : nat -> bool.
Variable timestamp : Time -> Time.
Variable broken_after : nat -> option nat.

Local Abbreviation SaveResult := (storage.SaveResult up).
Local Abbreviation SaveResults := (storage.SaveResults up).
Local Abbreviation GetRecentResults :=
  (storage.GetRecentResults up timestamp broken_after).
Local Abbreviation newer_first := (storage.newer_first timestamp).
Local Abbreviation scan_all := (storage.scan_all timestamp).
Local Abbreviation decode_row := (storage.decode_row timestamp).
Local Abbreviation stored_checked_at := (storage.stored_checked_at timestamp).

#[local] Existing Instance newer_first_trans.
#[local] Existing Instance newer_first_total.


Lemma scan_all_inr delivered err :
  scan_all delivered = inr err -> err = ErrScanNull.
Proof.
  induction delivered as [|row rest IH]; cbn; [done|].
  unfold scan_row. destruct (status_code row) as [code|]; [|by intros [= <-]].
  destruct (scan_all rest) as [rs|err']; [done|].
  intros [= <-]. by apply IH.
Qed.

Lemma scan_all_no_null delivered :
  Forall (fun row => is_Some (status_code row)) delivered ->
  scan_all delivered = inl (decode_row <$> delivered).
Proof.
  induction 1 as [|row rest [code Hcode] _ IH]; [done|].
  cbn. unfold scan_row, storage.decode_row at 1. rewrite Hcode, IH. done.
Qed.



Lemma no_null_SaveResult db r :
  no_null_status db -> no_null_status (SaveResult db r).1.
Proof.
  unfold no_null_status. intros Hdb.
  destruct (SaveResult_cases up db r) as [(-> & _)|[err ->]]; cbn; [|done].
  apply Forall_app. split; [done|]. apply Forall_singleton. by eexists.
Qed.

Lemma no_null_save_each results : forall db,
  no_null_status db -> no_null_status (save_each up db results).1.
Proof.
  induction results as [|r rs IH]; intros db Hdb; [done|].
  cbn [storage.save_each]. pose proof (no_null_SaveResult db r Hdb) as H1.
  destruct (SaveResult db r) as [db' [err|]]; [done|]. by apply IH.
Qed.

Lemma no_null_selected db url' limit :
  no_null_status db ->
  Forall (fun row => is_Some (status_code row))
         (select_recent timestamp db url' limit).
Proof.
  unfold no_null_status, select_recent. intros Hdb.
  apply Forall_take. rewrite merge_sort_Permutation.
  rewrite Forall_forall in Hdb |- *.
  intros row [_ Hin]%list_elem_of_filter. by apply Hdb.
Qed.

(** X16. A table written only through [SaveResult] and [SaveResults]
    can always be read back: both leave no row without a status code,
    so that on such a table no [Scan] of [GetRecentResults] fails; with
    a non-negative limit and a URL the server takes as text, a query
    that reaches the server and is read to the end returns no error. *)
Theorem saved_rows_read_back (db : DB) :
  no_null_status db ->
  (forall r, no_null_status (SaveResult db r).1) /\
  (forall results, no_null_status (SaveResults db results).1) /\
  (forall url' limit,
     (GetRecentResults db url' limit).2.2 <> Some ErrScanNull) /\
  (forall url' limit,
     0 <= limit -> valid_text url' = true ->
     up (trips db) = true -> broken_after (trips db) = None ->
     (GetRecentResults db url' limit).2.2 = None).
Proof.
  intros Hdb. repeat split_and.
  - intros r. by apply no_null_SaveResult.
  - intros results. unfold storage.SaveResults, db_Begin.
    destruct (up (trips db)); [|done].
    pose proof (no_null_save_each results (mkDB (rows db) (S (trips db))) Hdb) as H1.
    destruct (save_each up _ results) as [db1 [err|]]; cbn in *; [done|].
    unfold tx_Commit. cbn. destruct (up (trips db1)); cbn; [|done].
    unfold no_null_status in *. cbn. by rewrite app_nil_r.
  - intros url' limit. unfold storage.GetRecentResults.
    destruct (up (trips db)); cbn [negb]; [|done].
    destruct (valid_text url'); cbn [negb]; [|done].
    destruct (limit <? 0); [done|].
    pose proof (no_null_selected db url' limit Hdb) as Hsel.
    destruct (broken_after (trips db)) as [k|].
    + rewrite scan_all_no_null by (by apply Forall_take). done.
    + rewrite scan_all_no_null by done. done.
  - intros url' limit Hlimit Hvalid Hup Hread. unfold storage.GetRecentResults.
    rewrite Hup, Hvalid, Hread. cbn [negb].
    destruct (Z.ltb_spec limit 0); [lia|].
    by rewrite scan_all_no_null by (by apply no_null_selected).
Qed.

End StoreMoreFacts.

Lemma saved_rows_read_back_witness :
  (storage.GetRecentResults scenario.always_up scenario.to_microsecond
     scenario.unbroken
     (storage.SaveResult scenario.always_up scenario.empty_db scenario.A).1
     "A" 10).2.2 = None.
Proof.
  apply (saved_rows_read_back scenario.always_up scenario.to_microsecond
           scenario.unbroken
           (storage.SaveResult scenario.always_up scenario.empty_db scenario.A).1).
  - change (Forall (fun row => is_Some (storage.status_code row))
              [storage.row_of scenario.A]).
    apply Forall_singleton. by eexists.
  - lia.
  - reflexivity.
  - reflexivity.
  - reflexivity.
Defined.

(** ** Package grpc: what the registry holds and what a poll does *)

Section RegistryMoreFacts.

Import grpc.

Lemma registry_polled_AddEndpoint now url intervalSec timeoutSec s :
  registry_polled s ->
  registry_polled (AddEndpoint now url intervalSec timeoutSec s).2.
Proof.
  intros Hp id ch. unfold AddEndpoint, startMonitoring. cbn.
  intros [[<- <-]|[Hne Hid]]%lookup_insert_Some.
  - eexists. rewrite lookup_insert_eq. repeat split_and; try done.
    apply elem_of_app. right. by apply list_elem_of_singleton.
  - destruct (Hp id ch Hid) as (e & He & Hide & Hen & Hloop).
    exists e. rewrite lookup_insert_ne by done. repeat split_and; try done.
    apply elem_of_app. by left.
Qed.

Lemma registry_polled_StopMonitoring id s s' :
  registry_ok s -> registry_polled s ->
  StopMonitoring id s = Returns s' -> registry_polled s'.
Proof.
  intros Hok Hp Hstop.
  destruct (stopChannels s !! id) as [ch|] eqn:Hid.
  - rewrite (StopMonitoring_registered s id ch Hok Hid) in Hstop.
    injection Hstop as <-. intros id' ch'. cbn.
    intros [Hne Hid']%lookup_delete_Some.
    destruct (Hp id' ch' Hid') as (e & He & Hrest).
    exists e. by rewrite lookup_delete_ne.
  - rewrite (StopMonitoring_unregistered s id Hid) in Hstop.
    by injection Hstop as <-.
Qed.

Lemma loops_chans_call s s' :
  registry_ok s -> call s s' ->
  length (loops s) = length (chans s) -> length (loops s') = length (chans s').
Proof.
  intros Hok Hcall Hlen. destruct Hcall as [now url i t s|id s s' Hstop].
  - unfold AddEndpoint, startMonitoring. cbn. rewrite !length_app. cbn. lia.
  - destruct (stopChannels s !! id) as [ch|] eqn:Hid.
    + rewrite (StopMonitoring_registered s id ch Hok Hid) in Hstop.
      injection Hstop as <-. cbn. by rewrite length_insert.
    + rewrite (StopMonitoring_unregistered s id Hid) in Hstop.
      by injection Hstop as <-.
Qed.

(** X17. In every registry reached from [NewMonitorServer] by calls of
    [AddEndpoint] and [StopMonitoring]: the two maps have the same ids;
    the stop channels in the map are open and differ from id to id; the
    endpoint stored under an id carries that id and is enabled; a
    goroutine for that very endpoint was started on its stop channel,
    and it is still polling if the process is still running, that is if
    no endpoint was added with an interval for which [time.NewTicker]
    panics; and there are as many goroutines started as channels
    made. *)
Theorem registry_reachable_invariants (s : MonitorServer) :
  rtc call NewMonitorServer s ->
  registry_ok s /\
  registry_polled s /\
  (forall id ch e,
     stopChannels s !! id = Some ch -> endpoints s !! id = Some e ->
     mkLoop e ch ∈ loops s /\ (running s -> polling s (mkLoop e ch))) /\
  length (loops s) = length (chans s).
Proof.
  intros Hrun.
  assert (registry_ok s /\ registry_polled s /\
          length (loops s) = length (chans s)) as (Hok & Hp & Hlen).
  { revert s Hrun. apply rtc_ind_r.
    - split; [apply registry_ok_new|]. split; [|done].
      intros id ch. cbn. by rewrite lookup_empty.
    - intros y z _ Hcall (Hok & Hp & Hlen).
      split; [by eapply registry_ok_call|].
      split; [|by eapply loops_chans_call].
      destruct Hcall as [now url i t s0|id s0 s0' Hstop].
      + by apply registry_polled_AddEndpoint.
      + by eapply registry_polled_StopMonitoring. }
  repeat split_and; try done.
  - intros id ch e Hid He.
    destruct (Hp id ch Hid) as (e' & He' & _ & _ & Hloop).
    assert (e' = e) as -> by congruence. split; [done|].
    intros Hrunning. unfold polling. cbn. repeat split_and; try done.
    + unfold running in Hrunning. rewrite Forall_forall in Hrunning.
      by apply (Hrunning _ Hloop).
    + by eapply ok_open.
Qed.

Lemma insert_last_closed (cs : list bool) :
  <[length cs := true]> (cs ++ [false]) = cs ++ [true].
Proof.
  rewrite insert_app_r_alt by lia. by rewrite Nat.sub_diag.
Qed.

(** X18. Adding an endpoint under an id that is not registered and then
    stopping that id gives back both maps as they were; what stays is
    the goroutine that was started and its stop channel, now closed. *)
Theorem AddEndpoint_then_StopMonitoring (s : MonitorServer) (now : Z)
    (url : string) (intervalSec timeoutSec : Z) :
  registry_ok s ->
  stopChannels s !! ("endpoint_" +:+ fmt_d now) = None ->
  let added := AddEndpoint now url intervalSec timeoutSec s in
  StopMonitoring added.1 added.2 =
  Returns (mkMonitorServer (endpoints s) (stopChannels s)
             (chans s ++ [true])
             (loops s ++
              [mkLoop (mkMonitorEndpoint added.1 url intervalSec timeoutSec true)
                      (length (chans s))])).
Proof.
  intros Hok Hfresh. cbv zeta.
  assert (endpoints s !! ("endpoint_" +:+ fmt_d now) = None) as Hfresh'.
  { destruct (endpoints s !! _) eqn:He; [|done].
    assert (is_Some (stopChannels s !! ("endpoint_" +:+ fmt_d now))) as [? Hsome]
      by (apply (ok_same_keys s Hok); eauto).
    congruence. }
  pose proof (registry_ok_AddEndpoint now url intervalSec timeoutSec s Hok) as Hok1.
  rewrite (StopMonitoring_registered _ _ (length (chans s)) Hok1)
    by apply lookup_insert_eq.
  unfold AddEndpoint, startMonitoring. cbn.
  by rewrite !delete_insert_id, insert_last_closed.
Qed.

(** X19. [ListEndpoints] returns each registered endpoint once: an
    endpoint is listed exactly when it is stored under some id, and the
    list is as long as the map is large. [AddEndpoint] makes the list
    one longer when its id is new and leaves its length alone when the
    id is taken (the entry is replaced). *)
Theorem ListEndpoints_lists_registered (s : MonitorServer) :
  length (ListEndpoints s) = size (endpoints s) /\
  (forall e, e ∈ ListEndpoints s <-> exists id, endpoints s !! id = Some e) /\
  (forall now url intervalSec timeoutSec,
     let added := AddEndpoint now url intervalSec timeoutSec s in
     length (ListEndpoints added.2) =
       match endpoints s !! added.1 with
       | Some _ => length (ListEndpoints s)
       | None => S (length (ListEndpoints s))
       end).
Proof.
  unfold ListEndpoints. repeat split_and.
  - by rewrite length_fmap, length_map_to_list.
  - intros e. rewrite list_elem_of_fmap. split.
    + intros ([id e'] & -> & Hin). exists id. by apply elem_of_map_to_list.
    + intros [id Hid]. exists (id, e). split; [done|].
      by apply elem_of_map_to_list.
  - intros now url i t. cbv zeta. unfold AddEndpoint, startMonitoring. cbn.
    rewrite !length_fmap, !length_map_to_list.
    destruct (endpoints s !! _) eqn:He.
    + by rewrite map_size_insert_Some.
    + by rewrite map_size_insert_None.
Qed.

End RegistryMoreFacts.

Lemma registry_reachable_invariants_witness :
  grpc.registry_ok
    (grpc.AddEndpoint 1700000000 "http://a.example" 30 5 grpc.NewMonitorServer).2.
Proof.
  apply (registry_reachable_invariants
           (grpc.AddEndpoint 1700000000 "http://a.example" 30 5
              grpc.NewMonitorServer).2).
  apply rtc_once. apply grpc.call_AddEndpoint.
Defined.

Lemma AddEndpoint_then_StopMonitoring_witness :
  exists s',
    grpc.StopMonitoring "endpoint_1700000000"
      (grpc.AddEndpoint 1700000000 "http://a.example" 30 5 grpc.NewMonitorServer).2
    = Returns s' /\
    grpc.endpoints s' = ∅ /\ grpc.stopChannels s' = ∅.
Proof.
  eexists. split.
  - apply (AddEndpoint_then_StopMonitoring grpc.NewMonitorServer 1700000000
             "http://a.example" 30 5 registry_ok_new).
    apply lookup_empty.
  - split; reflexivity.
Defined.

Section PollFacts.

Import grpc.

Variable strconv_Quote : string -> string.
Variable up : nat -> bool.

Local Abbreviation tick := (grpc.tick strconv_Quote up).

(** X20. One poll never makes the result stream longer than its 100
    places: with room left the result of the check is appended, and with
    the stream full it is dropped and the stream left as it is. Whether
    the result is published does not depend on the store: it is the
    same with no store, and whether or not the save succeeded; a failed
    save leaves the table unchanged. A disabled endpoint is not polled. *)
Theorem tick_bounded_best_effort (env : checker.Env)
    (endpoint : MonitorEndpoint) (p : PollState) :
  let result := checker.Check strconv_Quote env (URL endpoint) in
  let p' := tick env endpoint p in
  ((length (resultStream p) <= resultStream_cap)%nat ->
   (length (resultStream p') <= resultStream_cap)%nat) /\
  (Enabled endpoint = false -> p' = p) /\
  (Enabled endpoint = true ->
     resultStream p' =
       (if decide (length (resultStream p) < resultStream_cap)%nat
        then resultStream p ++ [result] else resultStream p) /\
     resultStream p' = resultStream (tick env endpoint (mkPollState None (resultStream p))) /\
     match store p with
     | None => store p' = None
     | Some db =>
         exists db', store p' = Some db' /\
           (storage.rows db' = storage.rows db ++ [storage.row_of result] \/
            storage.rows db' = storage.rows db)
     end).
Proof.
  cbv zeta. unfold grpc.tick, resultStream_cap.
  destruct (Enabled endpoint); cbn [resultStream store].
  - repeat split_and; try done.
    + intros Hlen. destruct (Nat.ltb_spec (length (resultStream p)) 100);
        rewrite ?length_app; cbn; lia.
    + intros _. repeat split_and.
      * destruct (Nat.ltb_spec (length (resultStream p)) 100);
          destruct (decide (length (resultStream p) < 100)%nat); try lia; done.
      * done.
      * destruct (store p) as [db|]; [|done].
        eexists. split; [done|].
        destruct (SaveResult_cases up db
                    (checker.Check strconv_Quote env (URL endpoint)))
          as [(-> & _)|[err ->]]; cbn; [by left|by right].
  - repeat split_and; done.
Qed.

End PollFacts.

(** ** Command query: the statistics *)

Section QueryFacts.

Import checker.

Local Abbreviation ms_of := (fun r => storage.Duration_Milliseconds (ResponseTime r)).
Local Abbreviation stats_step :=
  (fun '(total, healthy) result =>
     (wrap64 (total + storage.Duration_Milliseconds (ResponseTime result)),
      if IsHealthy result then wrap64 (healthy + 1) else healthy)).

Lemma stats_fold results : forall total healthy,
  in_int64 total -> 0 <= healthy ->
  healthy + Z.of_nat (length results) < 2 ^ 63 ->
  fold_left stats_step results (total, healthy) =
  (wrap64 (total + foldr (fun r acc => ms_of r + acc) 0 results),
   healthy + Z.of_nat (length (filter (fun r => IsHealthy r = true) results))).
Proof.
  induction results as [|r rs IH]; intros total healthy Ht Hh Hlen.
  - cbn. rewrite !Z.add_0_r. by rewrite wrap64_id.
  - cbn [fold_left foldr]. rewrite length_cons in Hlen.
    rewrite filter_cons.
    destruct (IsHealthy r) eqn:Hr.
    + rewrite (wrap64_id (healthy + 1)) by (unfold in_int64; lia).
      rewrite IH by (try apply wrap64_range; lia).
      rewrite wrap64_add_l. rewrite decide_True by done. cbn [length].
      f_equal; [f_equal|]; lia.
    + rewrite IH by (try apply wrap64_range; lia).
      rewrite wrap64_add_l. rewrite decide_False by done.
      f_equal. f_equal. lia.
Qed.

(** X21. The statistics of the query command never divide by zero: with
    no result nothing is computed. Otherwise the count of healthy
    checks is the number of healthy results, and the average is the sum
    of the response times in whole milliseconds divided by the number of
    results, rounded down, whenever those times are non-negative and
    their sum fits in 64 bits. *)
Theorem statistics_guarded (results : list CheckResult) :
  match query.statistics results with
  | Panics _ => False
  | Returns None => results = []
  | Returns (Some (avg, healthy)) =>
      results <> [] /\
      (is_slice results ->
       healthy = Z.of_nat (length (filter (fun r => IsHealthy r = true) results))) /\
      (is_slice results ->
       Forall (fun r => 0 <= ms_of r) results ->
       foldr (fun r acc => ms_of r + acc) 0 results < 2 ^ 63 ->
       avg = foldr (fun r acc => ms_of r + acc) 0 results / Z.of_nat (length results))
  end.
Proof.
  unfold query.statistics.
  destruct results as [|r rs]; [done|].
  cbn [length Nat.eqb].
  destruct (fold_left _ (r :: rs) (0, 0)) as [total healthy] eqn:Hfold.
  unfold div64.
  destruct (Z.eqb_spec (Z.of_nat (S (length rs))) 0) as [Hz|_]; [lia|].
  split; [done|].
  assert (is_slice (r :: rs) ->
          total = wrap64 (foldr (fun r acc => ms_of r + acc) 0 (r :: rs)) /\
          healthy = Z.of_nat (length (filter (fun r => IsHealthy r = true) (r :: rs))))
    as Hspec.
  { intros Hsl. unfold is_slice in Hsl.
    rewrite (stats_fold (r :: rs) 0 0) in Hfold
      by (unfold in_int64; cbn [length] in *; lia).
    rewrite !Z.add_0_l in Hfold. by injection Hfold as <- <-. }
  split; [intros Hsl; by apply Hspec|].
  intros Hsl Hpos Hsum. destruct (Hspec Hsl) as [-> _].
  set (total := foldr _ 0 (r :: rs)) in *.
  assert (0 <= total) as H0.
  { subst total. clear -Hpos. induction Hpos as [|x l Hx _ IH]; cbn; [done|]. lia. }
  rewrite (wrap64_id total) by (unfold in_int64; lia).
  rewrite Z.quot_div_nonneg by lia.
  apply wrap64_id. unfold in_int64.
  assert (0 <= total / Z.of_nat (S (length rs)) <= total); [|cbn [length]; lia].
  split; [apply Z.div_pos; lia|]. apply Z.div_le_upper_bound; nia.
Qed.

End QueryFacts.

(** ** Command mock-ai *)

Section MockFacts.

Import mockai.

Variable strings_ToLower : string -> string.
Variable json_MarshalIndent : list Insight -> option string.

Local Abbreviation generateInsights := (mockai.generateInsights strings_ToLower).
Local Abbreviation chatCompletionsHandler :=
  (mockai.chatCompletionsHandler strings_ToLower json_MarshalIndent).

(** X22. Whatever the prompt, the mock service answers with exactly two
    insights, each of one of the four types the client accepts and with
    a confidence between 0 and 1; and a prompt that mentions an
    unhealthy endpoint gets an [alert] first. *)
Theorem mock_generateInsights_two (prompt : string) :
  length (generateInsights prompt) = 2%nat /\
  Forall (fun i => Type_ i ∈ ["alert"; "warning"; "info"; "success"] /\
                   (0 <= Confidence i <= 1)%Q)
         (generateInsights prompt) /\
  (strings_Contains (strings_ToLower prompt) "unhealthy" = true ->
   Type_ <$> generateInsights prompt = ["alert"; "warning"]).
Proof.
  unfold mockai.generateInsights.
  generalize (strings_Contains (strings_ToLower prompt) "unhealthy"),
    (strings_Contains (strings_ToLower prompt) "down"),
    (strings_Contains (strings_ToLower prompt) "slow"),
    (strings_Contains (strings_ToLower prompt) "5000ms"),
    (strings_Contains (strings_ToLower prompt) "delay"),
    (strings_Contains (strings_ToLower prompt) "healthy"),
    (strings_Contains (strings_ToLower prompt) "200").
  intros [] [] [] [] [] [] []; cbn [orb andb];
    (split; [done|split; [|done]]);
    repeat (apply Forall_cons; split; [split|]); try apply Forall_nil;
    try (refine (@bool_decide_unpack _ _ _); vm_compute; exact I);
    by (split; unfold Qle; cbn).
Qed.

Lemma user_prompt_spec messages :
  (Forall (fun m => ai.Role m <> "user") messages /\ user_prompt messages = "") \/
  (exists before m rest,
     messages = before ++ m :: rest /\
     Forall (fun m => ai.Role m <> "user") before /\
     ai.Role m = "user" /\ user_prompt messages = ai.MsgContent m).
Proof.
  induction messages as [|m messages IH]; cbn; [by left|].
  destruct (String.eqb_spec (ai.Role m) "user") as [Hu|Hu].
  - right. exists [], m, messages. by repeat split_and.
  - destruct IH as [[Hall Hp]|(before & m' & rest & -> & Hall & Hu' & Hp)].
    + left. split; [by apply Forall_cons|done].
    + right. exists (m :: before), m', rest. repeat split_and; try done.
      by apply Forall_cons.
Qed.

(** X23. The mock completion handler answers a completion exactly to a
    [POST] whose body decodes, whose first message of role user has a
    non-empty content and whose insights can be marshalled; the answer
    then holds exactly one choice, of role assistant, whose content is
    the marshalled insights for that content, an id made of the first
    reading of the clock and [Created] set to the second. [OPTIONS] is
    answered 200 and any other method but [POST] 405. A [POST] is
    answered 400 exactly when its body does not decode or has no user
    message with a non-empty content in first place, and 500 exactly
    when the body is good and marshalling the insights fails. *)
Theorem chatCompletionsHandler_replies (method : string)
    (body : option ai.ChatCompletionRequest) (time_Now_Unix : nat -> Z) :
  match chatCompletionsHandler method body time_Now_Unix with
  | ReplyCompletion response =>
      method = "POST" /\
      exists req before m rest json,
        body = Some req /\
        ai.Messages req = before ++ m :: rest /\
        Forall (fun m => ai.Role m <> "user") before /\
        ai.Role m = "user" /\ ai.MsgContent m <> "" /\
        json_MarshalIndent (generateInsights (ai.MsgContent m)) = Some json /\
        response =
          ai.mkResponse ("chatcmpl-" +:+ fmt_d (time_Now_Unix 0%nat))
            "chat.completion" (time_Now_Unix 1%nat) "gpt-oss-20b"
            [ai.mkChoice 0 (ai.mkMessage "assistant" json)]
  | ReplyStatus code => method = "OPTIONS" /\ code = 200
  | ReplyError text code =>
      method <> "OPTIONS" /\
      (code = 405 /\ method <> "POST" \/
       code = 400 /\ method = "POST" /\
         (body = None \/
          exists req, body = Some req /\ user_prompt (ai.Messages req) = "") \/
       code = 500 /\ method = "POST" /\
         exists req, body = Some req /\ user_prompt (ai.Messages req) <> "" /\
           json_MarshalIndent (generateInsights (user_prompt (ai.Messages req)))
             = None)
  end.
Proof.
  unfold mockai.chatCompletionsHandler.
  destruct (String.eqb_spec method "OPTIONS") as [->|Hopt]; [done|].
  destruct (String.eqb_spec method "POST") as [->|Hpost]; cbn [negb].
  2:{ split; [done|]. by left. }
  destruct body as [req|]; [|split; [done|]; right; left; by repeat split_and; try left].
  destruct (String.eqb_spec (user_prompt (ai.Messages req)) "") as [Hempty|Hne].
  { split; [done|]. right. left. repeat split_and; try done. right. by exists req. }
  destruct (json_MarshalIndent _) as [json|] eqn:Hjson.
  - split; [done|].
    destruct (user_prompt_spec (ai.Messages req))
      as [[_ Hp]|(before & m & rest & Hmsgs & Hall & Hu & Hp)]; [done|].
    exists req, before, m, rest, json. rewrite <- Hp. by repeat split_and.
  - split; [done|]. right. right. repeat split_and; try done. by exists req.
Qed.

End MockFacts.
